(** * cpgame: the timer registry, the event loop and the button router

    A shallow embedding of [cpgame.py].  The module-level globals of the
    Python file become the fields of one [state] record; every function
    that touches them becomes a function on that record.  What the Python
    code takes from its surroundings is made explicit:

    - [time.monotonic()] pops the next reading from a list of clock
      readings carried in the state;
    - the pin drivers and the shift register are read from a list of
      hardware readings, one per poll;
    - the bodies of the user's handlers, the pin tables [DIGITALIO] and
      [TOUCHIO] derived from the [board] module, and whether the host
      checks a dict for changes while it is iterated (CPython does and
      raises [RuntimeError]; the loops of [start] delete from and assign
      to the dicts they iterate) are the fields of an environment record
      [env].

    Timestamps and intervals are integers (clock ticks of one millisecond,
    so the poll period [0.02] is [20]).  The joystick axes are floating
    point and have no influence on the scheduler or on button dispatch;
    they are left out.  *)

From Stdlib Require Import String.
From Stdlib Require Import ZArith List Bool Lia PeanoNat.
Import ListNotations.
Local Open Scope Z_scope.

Set Implicit Arguments.

(** ** Python values used as button identifiers *)

Inductive pyval : Type :=
| PPin (id : nat)        (* an attribute of the board module *)
| PInt (n : Z)
| PStr (s : string).

Definition pyval_eqb (a b : pyval) : bool :=
  match a, b with
  | PPin i, PPin j => Nat.eqb i j
  | PInt n, PInt m => Z.eqb n m
  | PStr s, PStr t => String.eqb s t
  | _, _ => false
  end.

(** [x in l] *)
Definition py_in (x : pyval) (l : list pyval) : bool := existsb (pyval_eqb x) l.

(** [l1 == l2] on lists *)
Fixpoint py_list_eqb (l1 l2 : list pyval) : bool :=
  match l1, l2 with
  | [], [] => true
  | a :: r1, b :: r2 => pyval_eqb a b && py_list_eqb r1 r2
  | _, _ => false
  end.

(** [l.remove(x)]: drops the first occurrence, [ValueError] ([None]) when
    there is none. *)
Fixpoint list_remove (x : pyval) (l : list pyval) : option (list pyval) :=
  match l with
  | [] => None
  | y :: r => if pyval_eqb y x then Some r
              else option_map (cons y) (list_remove x r)
  end.

(** [min(l)]: [ValueError] ([None]) on the empty list. *)
Definition py_min (l : list Z) : option Z :=
  match l with
  | [] => None
  | x :: r => Some (fold_left Z.min r x)
  end.

(** ** Callables *)

(** The callables the registries hold: the functions of the application,
    told apart by identity, and the [Gamepad] instance built by [start]. *)
Inductive handler : Type :=
| Fn (id : nat)
| Pad.

Definition handler_eqb (a b : handler) : bool :=
  match a, b with
  | Fn i, Fn j => Nat.eqb i j
  | Pad, Pad => true
  | _, _ => false
  end.

(** ** Dictionaries keyed by callables

    A dict is its table of entries in insertion order.  Deleting a key
    leaves a hole at its position, assigning to a present key rewrites the
    value in place, assigning to an absent key appends an entry.  An items
    iterator is a position in the table, kept together with the number of
    live entries seen when it was created and the number of entries it
    may still hand out.  Tables are not compacted.  *)
Module Dict.

Section Values.
Variable V : Type.

Definition t := list (option (handler * V)).

Definition empty : t := [].

Fixpoint items (d : t) : list (handler * V) :=
  match d with
  | [] => []
  | Some kv :: r => kv :: items r
  | None :: r => items r
  end.

Definition keys (d : t) : list handler := map fst (items d).
Definition values (d : t) : list V := map snd (items d).
Definition len (d : t) : nat := length (items d).

(** [not d] *)
Definition is_empty (d : t) : bool := Nat.eqb (len d) 0.

Fixpoint get (d : t) (k : handler) : option V :=
  match d with
  | [] => None
  | Some (k', v) :: r => if handler_eqb k' k then Some v else get r k
  | None :: r => get r k
  end.

(** [d[k] = v] *)
Fixpoint set (d : t) (k : handler) (v : V) : t :=
  match d with
  | [] => [Some (k, v)]
  | Some (k', v') :: r =>
      if handler_eqb k' k then Some (k', v) :: r
      else Some (k', v') :: set r k v
  | None :: r => None :: set r k v
  end.

(** [d.pop(k, None)], and [del d[k]] for a key that is present *)
Fixpoint remove (d : t) (k : handler) : t :=
  match d with
  | [] => []
  | Some (k', v') :: r =>
      if handler_eqb k' k then None :: r
      else Some (k', v') :: remove r k
  | None :: r => None :: remove r k
  end.

(** The first live entry at position [pos] or later, with the position
    that follows it. *)
Fixpoint seek (d : t) (pos : nat) : option (nat * (handler * V)) :=
  match d with
  | [] => None
  | e :: r =>
      match pos with
      | S p => option_map (fun '(i, kv) => (S i, kv)) (seek r p)
      | O =>
          match e with
          | Some kv => Some (1%nat, kv)
          | None => option_map (fun '(i, kv) => (S i, kv)) (seek r 0)
          end
      end
  end.

Record iter : Type := mkIter {
  it_pos : nat;        (* where to look next *)
  it_used : nat;       (* live entries when the iterator was made *)
  it_len : nat         (* entries it may still hand out *)
}.

Definition iter_start (d : t) : iter := mkIter 0 (len d) (len d).

Inductive step : Type :=
| Changed                                   (* RuntimeError *)
| Done
| Yield (kv : handler * V) (it : iter).

(** One [next()] on the items iterator of the dict as it is now.  With
    [strict] the iterator raises [RuntimeError] as CPython does: when the
    number of live entries is no longer what it was when the iterator was
    made, and when it comes upon an entry after it has handed out as many
    as the dict held at that time. *)
Definition next (strict : bool) (d : t) (it : iter) : step :=
  if strict && negb (Nat.eqb (len d) (it_used it)) then Changed
  else match seek d (it_pos it) with
       | None => Done
       | Some (p, kv) =>
           if strict && Nat.eqb (it_len it) 0 then Changed
           else Yield kv (mkIter p (it_used it) (Nat.pred (it_len it)))
       end.
End Values.

Arguments Changed {V}.
Arguments Done {V}.

End Dict.

(** ** The globals of the module *)

Definition DOWN : Z := 1.
Definition UP : Z := 2.

(** What a handler hands back to the dispatcher: the [PROPOGATE] object, or
    anything else ([None] included). *)
Inductive retval : Type := PROPOGATE | Other.

(** [GAMEPAD]: the bit of each button of the shift register, in the order
    of the named tuple's fields A, B, START, SELECT, X, Y, Z, R. *)
Definition GAMEPAD_BITS : list Z := [2; 1; 4; 8; 16; 32; 64; 128].
Definition GAMEPAD : list pyval := map PInt GAMEPAD_BITS.

(** The input objects [on] builds for a pin. *)
Inductive driver : Type :=
| DigitalInOut (pin : pyval)
| TouchIn (pin : pyval).

(** The object held by [GAMEPADSHIFT] once it has been built. *)
Inductive shiftreg : Type := GamePadShift.

(** One poll's worth of hardware: [dio.value] for every driver, and the
    word returned by [get_pressed()]. *)
Record reading : Type := mkReading {
  rd_value : driver -> bool;
  rd_pressed : Z
}.

(** A binding, as the tuple [(fn, buttons, action)]. *)
Definition press : Type := (handler * list pyval * Z)%type.

Record state : Type := mkState {
  RUNNING : bool;
  INTERVALS : Dict.t (Z * Z);            (* fn -> (interval, last_called) *)
  TIMERS : Dict.t Z;                     (* fn -> target *)
  BUTTONS : list pyval;
  DIOS : list driver;
  PRESSES : list press;
  GAMEPADSHIFT : option shiftreg;
  pad_down : list pyval;                 (* Gamepad.instance.down *)
  pad_pressed : list pyval;              (* Gamepad.instance.pressed *)
  clock : list Z;                        (* readings of time.monotonic() to come *)
  inputs : list reading;                 (* hardware readings to come *)
  stdout : list string                   (* lines printed so far *)
}.

(** The module right after import. *)
Definition initial (clk : list Z) (ins : list reading) : state :=
  mkState true (Dict.empty _) (Dict.empty _) [] [] [] None [] [] clk ins [].

Definition with_RUNNING (v : bool) (s : state) : state :=
  mkState v (INTERVALS s) (TIMERS s) (BUTTONS s) (DIOS s) (PRESSES s)
          (GAMEPADSHIFT s) (pad_down s) (pad_pressed s) (clock s) (inputs s) (stdout s).
Definition with_INTERVALS (v : Dict.t (Z * Z)) (s : state) : state :=
  mkState (RUNNING s) v (TIMERS s) (BUTTONS s) (DIOS s) (PRESSES s)
          (GAMEPADSHIFT s) (pad_down s) (pad_pressed s) (clock s) (inputs s) (stdout s).
Definition with_TIMERS (v : Dict.t Z) (s : state) : state :=
  mkState (RUNNING s) (INTERVALS s) v (BUTTONS s) (DIOS s) (PRESSES s)
          (GAMEPADSHIFT s) (pad_down s) (pad_pressed s) (clock s) (inputs s) (stdout s).
Definition with_BUTTONS (v : list pyval) (s : state) : state :=
  mkState (RUNNING s) (INTERVALS s) (TIMERS s) v (DIOS s) (PRESSES s)
          (GAMEPADSHIFT s) (pad_down s) (pad_pressed s) (clock s) (inputs s) (stdout s).
Definition with_DIOS (v : list driver) (s : state) : state :=
  mkState (RUNNING s) (INTERVALS s) (TIMERS s) (BUTTONS s) v (PRESSES s)
          (GAMEPADSHIFT s) (pad_down s) (pad_pressed s) (clock s) (inputs s) (stdout s).
Definition with_PRESSES (v : list press) (s : state) : state :=
  mkState (RUNNING s) (INTERVALS s) (TIMERS s) (BUTTONS s) (DIOS s) v
          (GAMEPADSHIFT s) (pad_down s) (pad_pressed s) (clock s) (inputs s) (stdout s).
Definition with_GAMEPADSHIFT (v : option shiftreg) (s : state) : state :=
  mkState (RUNNING s) (INTERVALS s) (TIMERS s) (BUTTONS s) (DIOS s) (PRESSES s)
          v (pad_down s) (pad_pressed s) (clock s) (inputs s) (stdout s).
Definition with_pad_down (v : list pyval) (s : state) : state :=
  mkState (RUNNING s) (INTERVALS s) (TIMERS s) (BUTTONS s) (DIOS s) (PRESSES s)
          (GAMEPADSHIFT s) v (pad_pressed s) (clock s) (inputs s) (stdout s).
Definition with_pad_pressed (v : list pyval) (s : state) : state :=
  mkState (RUNNING s) (INTERVALS s) (TIMERS s) (BUTTONS s) (DIOS s) (PRESSES s)
          (GAMEPADSHIFT s) (pad_down s) v (clock s) (inputs s) (stdout s).
Definition with_clock (v : list Z) (s : state) : state :=
  mkState (RUNNING s) (INTERVALS s) (TIMERS s) (BUTTONS s) (DIOS s) (PRESSES s)
          (GAMEPADSHIFT s) (pad_down s) (pad_pressed s) v (inputs s) (stdout s).
Definition with_inputs (v : list reading) (s : state) : state :=
  mkState (RUNNING s) (INTERVALS s) (TIMERS s) (BUTTONS s) (DIOS s) (PRESSES s)
          (GAMEPADSHIFT s) (pad_down s) (pad_pressed s) (clock s) v (stdout s).
Definition print (line : string) (s : state) : state :=
  mkState (RUNNING s) (INTERVALS s) (TIMERS s) (BUTTONS s) (DIOS s) (PRESSES s)
          (GAMEPADSHIFT s) (pad_down s) (pad_pressed s) (clock s) (inputs s)
          (stdout s ++ [line]).

(** ** Results *)

Inductive exn : Type :=
| AttributeError       (* an attribute of [None] *)
| UnboundLocalError    (* a local read before any assignment *)
| RuntimeError         (* a dict resized under its iterator *)
| ValueError           (* [min] of nothing, [remove] of an absent item *)
| Fault (code : nat).  (* whatever a handler raises itself *)

(** [Starved] is not a Python result: the run needed a clock or hardware
    reading that the state no longer holds, or more steps than the fuel it
    was given. *)
Inductive outcome (A : Type) : Type :=
| Ok (a : A)
| Raise (e : exn)
| Starved.
Arguments Raise {A} e.
Arguments Starved {A}.

(** Code that runs on the globals. *)
Definition act (A : Type) : Type := state -> outcome A * state.

(** What the code does not define itself. *)
Record env : Type := mkEnv {
  strict : bool;                       (* the host checks dict iterators as CPython does *)
  DIGITALIO : list pyval;
  TOUCHIO : list pyval;
  body : nat -> Z -> act retval        (* [Fn i] called with [now] *)
}.

(** ** Registration *)

(** [tick(fn)] *)
Definition tick (fn : handler) (s : state) : state :=
  with_INTERVALS (Dict.set (INTERVALS s) fn (0, 0)) s.

(** [every(interval, fn)], and [every(interval)] applied to [fn] *)
Definition every (interval : Z) (fn : handler) (s : state) : state :=
  with_INTERVALS (Dict.set (INTERVALS s) fn (interval, 0)) s.

(** [at(target, fn)] *)
Definition at_ (target : Z) (fn : handler) (s : state) : state :=
  with_TIMERS (Dict.set (TIMERS s) fn target) s.

(** [time.monotonic()] *)
Definition monotonic : act Z :=
  fun s => match clock s with
           | [] => (Starved, s)
           | t :: rest => (Ok t, with_clock rest s)
           end.

(** [after(target, fn)] *)
Definition after (target : Z) (fn : handler) : act unit :=
  fun s => match monotonic s with
           | (Ok t, s1) => (Ok tt, with_TIMERS (Dict.set (TIMERS s1) fn (t + target)) s1)
           | (Raise e, s1) => (Raise e, s1)
           | (Starved, s1) => (Starved, s1)
           end.

(** The inner loop of [cancel]: pop the first binding whose callable is
    [fn]. *)
Fixpoint pop_press (fn : handler) (l : list press) : list press :=
  match l with
  | [] => []
  | p :: r => if handler_eqb (fst (fst p)) fn then r else p :: pop_press fn r
  end.

Definition cancel1 (fn : handler) (s : state) : state :=
  let s1 := with_INTERVALS (Dict.remove (INTERVALS s) fn) s in
  let s2 := with_TIMERS (Dict.remove (TIMERS s1) fn) s1 in
  with_PRESSES (pop_press fn (PRESSES s2)) s2.

(** [cancel], over its argument tuple [fns] *)
Definition cancel (fns : list handler) (s : state) : state :=
  fold_left (fun acc fn => cancel1 fn acc) fns s.

(** [stop()] *)
Definition stop (s : state) : state := with_RUNNING false s.

Section Code.
Variable E : env.

(** The [for button in buttons] loop of [on].  [dio] is the local
    variable of that name: unbound until a branch assigns it, and then
    left as it is for the buttons that follow. *)
Fixpoint on_buttons (buttons : list pyval) (dio : option driver) : act unit :=
  fun s =>
    match buttons with
    | [] => (Ok tt, s)
    | button :: rest =>
        if negb (py_in button (BUTTONS s)) then
          if py_in button GAMEPAD then
            let s1 := match GAMEPADSHIFT s with
                      | None => with_GAMEPADSHIFT (Some GamePadShift) s
                      | Some _ => s
                      end in
            on_buttons rest dio s1                       (* continue *)
          else
            let '(dio1, s1) :=
              if py_in button (DIGITALIO E) then (Some (DigitalInOut button), s)
              else if py_in button (TOUCHIO E) then (Some (TouchIn button), s)
              else (dio, print "unknown button" s) in   (* the text without its argument *)
            let s2 := with_BUTTONS (BUTTONS s1 ++ [button]) s1 in
            match dio1 with
            | None => (Raise UnboundLocalError, s2)
            | Some d => on_buttons rest dio1 (with_DIOS (DIOS s2 ++ [d]) s2)
            end
        else on_buttons rest dio s
    end.

(** [on] with the argument tuple [buttons] and the keywords [fn] and
    [action]; also the decorator form, applied to [fn] *)
Definition on (buttons : list pyval) (fn : handler) (action : Z) : act unit :=
  fun s =>
    match on_buttons buttons None s with
    | (Ok _, s1) => (Ok tt, with_PRESSES (PRESSES s1 ++ [(fn, buttons, action)]) s1)
    | (Raise e, s1) => (Raise e, s1)
    | (Starved, s1) => (Starved, s1)
    end.
End Code.

(** ** Running code that calls handlers

    The runtime's own code runs on a [world]: the globals, and next to
    them the list of calls [fn(now)] made so far by the event loop and by
    the dispatcher.  The list is bookkeeping of the model; handler bodies
    get the globals only and cannot touch it. *)

Record world : Type := mkWorld {
  mem : state;
  calls : list (handler * Z)
}.

Definition run (A : Type) : Type := world -> outcome A * world.

Definition ret {A : Type} (a : A) : run A := fun w => (Ok a, w).

Definition bind {A B : Type} (m : run A) (k : A -> run B) : run B :=
  fun w => match m w with
           | (Ok a, w1) => k a w1
           | (Raise e, w1) => (Raise e, w1)
           | (Starved, w1) => (Starved, w1)
           end.

Definition raise {A : Type} (e : exn) : run A := fun w => (Raise e, w).
Definition starved {A : Type} : run A := fun w => (Starved, w).

Definition lift {A : Type} (f : act A) : run A :=
  fun w => let (r, s) := f (mem w) in (r, mkWorld s (calls w)).

Definition gets {A : Type} (f : state -> A) : run A := fun w => (Ok (f (mem w)), w).

Definition modify (f : state -> state) : run unit :=
  fun w => (Ok tt, mkWorld (f (mem w)) (calls w)).

Definition record_call (fn : handler) (now : Z) : run unit :=
  fun w => (Ok tt, mkWorld (mem w) (calls w ++ [(fn, now)])).

Declare Scope run_scope.
Delimit Scope run_scope with run.
Notation "x <- m ;; k" := (bind m (fun x => k))
  (at level 100, m at next level, right associativity) : run_scope.
Notation "m ;; k" := (bind m (fun _ => k))
  (at level 100, right associativity) : run_scope.
Local Open Scope run_scope.

(** ** The button router: [Gamepad.__call__] *)

Definition nonempty {A : Type} (l : list A) : bool :=
  match l with [] => false | _ => true end.

(** [for btn in fresh_up: pressed.remove(btn)] *)
Fixpoint remove_each (fresh_up pressed : list pyval) : option (list pyval) :=
  match fresh_up with
  | [] => Some pressed
  | btn :: rest =>
      match list_remove btn pressed with
      | None => None
      | Some pressed' => remove_each rest pressed'
      end
  end.

(** The hardware reading of this poll. *)
Definition next_reading : act reading :=
  fun s => match inputs s with
           | [] => (Starved, s)
           | rd :: rest => (Ok rd, with_inputs rest s)
           end.

(** [[button for button in GAMEPAD if gp_value & button != 0]] *)
Definition gp_down_of (gp_value : Z) : list pyval :=
  map PInt (filter (fun button => negb (Z.land gp_value button =? 0)) GAMEPAD_BITS).

(** [[button for button, dio in zip(BUTTONS, DIOS) if dio.value]] *)
Definition dio_down_of (rd : reading) (buttons : list pyval) (dios : list driver)
  : list pyval :=
  map fst (filter (fun bd => rd_value rd (snd bd)) (combine buttons dios)).

(** Whether the binding [(fn, buttons, action)] fires on these fresh
    sets: the two tests of the dispatch loop. *)
Definition matches (buttons : list pyval) (action : Z)
           (fresh_down fresh_up : list pyval) : bool :=
  if (action =? DOWN) && forallb (fun b => py_in b fresh_down) buttons then true
  else if (action =? UP) && forallb (fun b => py_in b fresh_up) buttons then true
  else false.

Section Router.
(** How a callable is called; tied to [invoke] below. *)
Variable call : handler -> Z -> run retval.

(** [for (fn, buttons, action) in PRESSES], on the list as it is at
    each step: [idx] is the position of the list iterator. *)
Fixpoint dispatch (fuel : nat) (idx : nat)
         (fresh_down fresh_up : list pyval) (now : Z) : run unit :=
  match fuel with
  | O => starved
  | S fuel' =>
      presses <- gets PRESSES ;;
      match nth_error presses idx with
      | None => ret tt
      | Some (fn, buttons, action) =>
          v <- (if (action =? DOWN) && forallb (fun b => py_in b fresh_down) buttons
                then call fn now
                else if (action =? UP) && forallb (fun b => py_in b fresh_up) buttons
                then call fn now
                else ret PROPOGATE) ;;
          match v with
          | PROPOGATE => dispatch fuel' (S idx) fresh_down fresh_up now
          | Other => ret tt                                (* break *)
          end
      end
  end.

Definition Gamepad_call (fuel : nat) (now : Z) : run unit :=
  shift <- gets GAMEPADSHIFT ;;
  match shift with
  | None => raise AttributeError           (* None.get_pressed *)
  | Some _ =>
      rd <- lift next_reading ;;
      let gp_value := rd_pressed rd in
      let gp_down := gp_down_of gp_value in
      buttons <- gets BUTTONS ;;
      dios <- gets DIOS ;;
      let down := dio_down_of rd buttons dios ++ gp_down in
      self_down <- gets pad_down ;;
      if negb (py_list_eqb down self_down) then
        modify (with_pad_down down)                        (* return *)
      else
        pressed <- gets pad_pressed ;;
        let fresh_down := filter (fun b => negb (py_in b pressed)) down in
        let fresh_up := filter (fun b => negb (py_in b down)) pressed in
        (if nonempty fresh_down
         then modify (with_pad_pressed (pressed ++ fresh_down))
         else ret tt) ;;
        (if nonempty fresh_up
         then
           pressed1 <- gets pad_pressed ;;
           match remove_each fresh_up pressed1 with
           | None => raise ValueError
           | Some pressed2 => modify (with_pad_pressed pressed2)
           end
         else ret tt) ;;
        if negb (nonempty fresh_down || nonempty fresh_up) then ret tt   (* return *)
        else dispatch fuel 0 fresh_down fresh_up now
  end.
End Router.

(** ** The event loop *)

(** The waiting loop at the end of an iteration: read the clock until
    [next_target] is reached.  [time.sleep] itself changes nothing the
    program can see other than later clock readings. *)
Fixpoint wait_until (next_target : Z) (clk : list Z) : option (list Z) :=
  match clk with
  | [] => None
  | t :: rest =>
      let slp := next_target - t in
      if 0 <? slp then wait_until next_target rest else Some rest
  end.

Definition sleep_until (next_target : Z) : act unit :=
  fun s => match wait_until next_target (clock s) with
           | None => (Starved, with_clock [] s)
           | Some rest => (Ok tt, with_clock rest s)
           end.

(** The argument of [min]: the comprehension binds the first component of
    each stored pair to the name [last_called] and the second to
    [interval], and adds them. *)
Definition wake_candidates (s : state) : list Z :=
  map (fun '(last_called, interval) => last_called + interval) (Dict.values (INTERVALS s))
  ++ map (fun target => target) (Dict.values (TIMERS s)).

Definition next_target_of (s : state) : option Z := py_min (wake_candidates s).

Section Loop.
Variable E : env.

(** [fn(now)]: the body of an application function, or the router when
    [fn] is the [Gamepad] instance (which returns [None]). *)
Fixpoint invoke (fuel : nat) (fn : handler) (now : Z) : run retval :=
  match fuel with
  | O => starved
  | S fuel' =>
      record_call fn now ;;
      match fn with
      | Fn i => lift (body E i now)
      | Pad => Gamepad_call (invoke fuel') fuel' now ;; ret Other
      end
  end.

(** [for fn, (interval, last_called) in INTERVALS.items()] *)
Fixpoint intervals_loop (fuel : nat) (it : Dict.iter) (now : Z) : run unit :=
  match fuel with
  | O => starved
  | S fuel' =>
      d <- gets INTERVALS ;;
      match Dict.next (strict E) d it with
      | Dict.Changed => raise RuntimeError
      | Dict.Done => ret tt
      | Dict.Yield (fn, (interval, last_called)) it' =>
          let target := last_called + interval in
          (if target <=? now then
             invoke fuel' fn now ;;
             modify (fun s => with_INTERVALS (Dict.set (INTERVALS s) fn (interval, now)) s)
           else ret tt) ;;
          intervals_loop fuel' it' now
      end
  end.

(** [for fn, target in TIMERS.items()] *)
Fixpoint timers_loop (fuel : nat) (it : Dict.iter) (now : Z) : run unit :=
  match fuel with
  | O => starved
  | S fuel' =>
      d <- gets TIMERS ;;
      match Dict.next (strict E) d it with
      | Dict.Changed => raise RuntimeError
      | Dict.Done => ret tt
      | Dict.Yield (fn, target) it' =>
          (if target <=? now then
             modify (fun s => with_TIMERS (Dict.remove (TIMERS s) fn) s) ;;
             invoke fuel' fn now ;;
             ret tt
           else ret tt) ;;
          timers_loop fuel' it' now
      end
  end.

(** The two loops over the registries, run with the same [now]. *)
Definition fire_pass (fuel : nat) (now : Z) : run unit :=
  it <- gets (fun s => Dict.iter_start (INTERVALS s)) ;;
  intervals_loop fuel it now ;;
  it <- gets (fun s => Dict.iter_start (TIMERS s)) ;;
  timers_loop fuel it now.

(** One turn of [while True] in [start]; [None] is the [return]. *)
Definition iteration (fuel : nat) : run (option unit) :=
  timers <- gets TIMERS ;;
  intervals <- gets INTERVALS ;;
  if Dict.is_empty timers && Dict.is_empty intervals then
    modify (print "No functions registered, quitting") ;;
    ret None
  else
    now <- lift monotonic ;;
    fire_pass fuel now ;;
    target <- gets next_target_of ;;
    match target with
    | None => raise ValueError
    | Some next_target =>
        lift (sleep_until next_target) ;;
        ret (Some tt)
    end.

Fixpoint loop (fuel : nat) : run unit :=
  match fuel with
  | O => starved
  | S fuel' =>
      r <- iteration fuel' ;;
      match r with
      | None => ret tt
      | Some _ => loop fuel'
      end
  end.

(** [Gamepad()]: a fresh instance with nothing down and nothing pressed. *)
Definition Gamepad_init (s : state) : state :=
  with_pad_pressed [] (with_pad_down [] s).

(** [start(fn)]; [None] for a call without argument. *)
Definition start (fuel : nat) (fn : option handler) : run unit :=
  modify (fun s => every 20 Pad (Gamepad_init s)) ;;
  match fn with
  | Some f => modify (at_ 0 f)
  | None => ret tt
  end ;;
  loop fuel.
End Loop.

(** ** A sample board and sample applications *)

(** A handler that does nothing and returns [None]. *)
Definition quiet : nat -> Z -> act retval := fun _ _ s => (Ok Other, s).

(** A board with the digital pins 4 and 5 and the touch pad 1. *)
Definition sample_env (strict_host : bool) (bodies : nat -> Z -> act retval) : env :=
  mkEnv strict_host [PPin 4; PPin 5] [PPin 1] bodies.

(** A reading with the given pins high and the given shift-register word. *)
Definition reading_of (high : list pyval) (word : Z) : reading :=
  mkReading (fun d => match d with
                      | DigitalInOut p => py_in p high
                      | TouchIn p => py_in p high
                      end) word.

(** A handler that calls [stop()] and returns [None]. *)
Definition stopper : nat -> Z -> act retval := fun _ _ s => (Ok Other, stop s).

(** An application with one binding on the gamepad button A and the
    handler [Fn 0] registered with [tick]. *)
Definition ticking_app (E : env) (clk : list Z) (ins : list reading) : state :=
  tick (Fn 0) (snd (on E [PInt 2] (Fn 1) DOWN (initial clk ins))).

(** An application with a binding on pin 4 and one on the gamepad button
    A, before [start]. *)
Definition two_button_app (E : env) (clk : list Z) (ins : list reading) : state :=
  snd (on E [PInt 2] (Fn 1) DOWN (snd (on E [PPin 4] (Fn 0) DOWN (initial clk ins)))).

(** Handlers of which the first hands back the propagate sentinel and the
    others return [None]. *)
Definition first_propagates : nat -> Z -> act retval :=
  fun i _ s => (Ok (match i with O => PROPOGATE | _ => Other end), s).

(** Three bindings on pin 4, in the order of the handlers 0, 1, 2. *)
Definition three_on_one_button : list press :=
  [(Fn 0%nat, [PPin 4], DOWN); (Fn 1%nat, [PPin 4], DOWN); (Fn 2%nat, [PPin 4], DOWN)].

(** Handlers that register tasks when they run: [Fn 1] calls
    [at(0, Fn 2)], a one-shot that is already due; [Fn 2] re-arms itself
    with [at(1000, Fn 2)]; [Fn 3] calls [every(5, Fn 4)]; [Fn 6] calls
    [cancel(Fn 7)] and then [every(5, Fn 8)]. *)
Definition scheduling : nat -> Z -> act retval :=
  fun i _ s =>
    match i with
    | 1%nat => (Ok Other, at_ 0 (Fn 2) s)
    | 2%nat => (Ok Other, at_ 1000 (Fn 2) s)
    | 3%nat => (Ok Other, every 5 (Fn 4) s)
    | 6%nat => (Ok Other, every 5 (Fn 8) (cancel [Fn 7] s))
    | _ => (Ok Other, s)
    end.

(** Two periodic tasks: [Fn 6] every 10 ms, [Fn 7] every 1000 s. *)
Definition replacing_app : state :=
  every 1000000 (Fn 7) (every 10 (Fn 6) (initial [] [])).

(** ** Scripts of registration calls *)

Inductive reg_call : Type :=
| CallTick (fn : handler)
| CallEvery (interval : Z) (fn : handler)
| CallAt (target : Z) (fn : handler)
| CallAfter (target : Z) (fn : handler)
| CallCancel (fns : list handler).

Definition do_call (c : reg_call) (s : state) : state :=
  match c with
  | CallTick fn => tick fn s
  | CallEvery interval fn => every interval fn s
  | CallAt target fn => at_ target fn s
  | CallAfter target fn => snd (after target fn s)
  | CallCancel fns => cancel fns s
  end.

Definition do_calls (cs : list reg_call) (s : state) : state :=
  fold_left (fun acc c => do_call c acc) cs s.

(** No callable is both a periodic task and a one-shot. *)
Definition exclusive (s : state) : Prop :=
  forall fn, ~ (In fn (Dict.keys (INTERVALS s)) /\ In fn (Dict.keys (TIMERS s))).

(** ** Scripts of bindings *)

(** Whether a combo names a member of [GAMEPAD]. *)
Definition references_gamepad (buttons : list pyval) : bool :=
  existsb (fun b => py_in b GAMEPAD) buttons.

(** A series of [on] calls, each given as [(buttons, fn, action)]; a call
    that raises leaves the globals as it had them at that point and the
    series goes on. *)
Definition do_bindings (E : env) (bs : list (list pyval * handler * Z)) (s : state)
  : state :=
  fold_left (fun acc '(buttons, fn, action) => snd (on E buttons fn action acc)) bs s.

(** ** Polls *)

(** The list [down] a poll computes from the reading [rd]. *)
Definition down_of (rd : reading) (s : state) : list pyval :=
  dio_down_of rd (BUTTONS s) (DIOS s) ++ gp_down_of (rd_pressed rd).

(** The confirmed set [pressed] and the list [down] hold the same
    buttons. *)
Definition in_step (down pressed : list pyval) : Prop :=
  forall b, In b down <-> In b pressed.

(** Three polls in a row, at the times [t1], [t2] and [t3]. *)
Definition three_polls (call : handler -> Z -> run retval) (fuel : nat) (t1 t2 t3 : Z)
  : run unit :=
  bind (Gamepad_call call fuel t1) (fun _ =>
  bind (Gamepad_call call fuel t2) (fun _ =>
  Gamepad_call call fuel t3)).

(** ** Reference definitions

    Definitions written after the wording of the design document, to be
    compared with the code above. *)

(** The deadlines of the registered tasks: [last_fired + interval] for
    every periodic task, [target] for every one-shot. *)
Definition deadlines (s : state) : list Z :=
  map (fun '(_, (interval, last_fired)) => last_fired + interval) (Dict.items (INTERVALS s))
  ++ map (fun '(_, target) => target) (Dict.items (TIMERS s)).

(** [m] is the minimum of [l]. *)
Definition is_minimum (m : Z) (l : list Z) : Prop :=
  In m l /\ forall x, In x l -> m <= x.

(** Some task is registered. *)
Definition has_tasks (s : state) : bool :=
  negb (Dict.is_empty (TIMERS s) && Dict.is_empty (INTERVALS s)).

(** The callable of a binding, and whether the binding matches the fresh
    sets. *)
Definition handler_of (p : press) : handler := fst (fst p).

Definition fires (fresh_down fresh_up : list pyval) (p : press) : bool :=
  matches (snd (fst p)) (snd p) fresh_down fresh_up.

(** The dispatch pass as the design document tells it: the bindings are
    taken in registration order; one that does not match is passed over;
    one that matches has its handler called with the current time, and the
    pass goes on to the later bindings only when the handler hands back
    the propagate sentinel.  The result lists the handlers called, each
    with what it returned. *)
Fixpoint walk (call : handler -> Z -> run retval) (presses : list press)
         (fresh_down fresh_up : list pyval) (now : Z) : run (list (handler * retval)) :=
  match presses with
  | [] => ret []
  | p :: later =>
      if fires fresh_down fresh_up p then
        bind (call (handler_of p) now) (fun v =>
        match v with
        | PROPOGATE =>
            bind (walk call later fresh_down fresh_up now) (fun tr =>
            ret ((handler_of p, PROPOGATE) :: tr))
        | Other => ret [(handler_of p, Other)]
        end)
      else walk call later fresh_down fresh_up now
  end.




(** A fire pass over a snapshot: the two loops of the pass, run over the
    lists of entries [snap] taken from the registries before the first
    handler is called, instead of over the registries themselves. *)
Fixpoint snapshot_intervals (E : env) (fuel : nat) (now : Z)
         (snap : list (handler * (Z * Z))) : run unit :=
  match fuel with
  | O => starved
  | S fuel' =>
      match snap with
      | [] => ret tt
      | (fn, (interval, last_called)) :: rest =>
          bind (if last_called + interval <=? now then
                  bind (invoke E fuel' fn now) (fun _ =>
                  modify (fun s => with_INTERVALS (Dict.set (INTERVALS s) fn (interval, now)) s))
                else ret tt) (fun _ =>
          snapshot_intervals E fuel' now rest)
      end
  end.

Fixpoint snapshot_timers (E : env) (fuel : nat) (now : Z)
         (snap : list (handler * Z)) : run unit :=
  match fuel with
  | O => starved
  | S fuel' =>
      match snap with
      | [] => ret tt
      | (fn, target) :: rest =>
          bind (if target <=? now then
                  bind (modify (fun s => with_TIMERS (Dict.remove (TIMERS s) fn) s)) (fun _ =>
                  bind (invoke E fuel' fn now) (fun _ => ret tt))
                else ret tt) (fun _ =>
          snapshot_timers E fuel' now rest)
      end
  end.

Definition snapshot_pass (E : env) (fuel : nat) (now : Z)
           (periodic : list (handler * (Z * Z))) (one_shot : list (handler * Z))
  : run unit :=
  bind (snapshot_intervals E fuel now periodic) (fun _ =>
  snapshot_timers E fuel now one_shot).


Definition due_timer (now : Z) (kv : handler * Z) : bool :=
  let '(_, target) := kv in target <=? now.


Definition is_function (fn : handler) : bool :=
  match fn with Fn _ => true | Pad => false end.


(** ** Invariants and frames *)

(** No key is held twice by a registry. *)
Definition unique_keys (s : state) : Prop :=
  NoDup (Dict.keys (INTERVALS s)) /\ NoDup (Dict.keys (TIMERS s)).

(** What the loop over the buttons of [on] leaves alone. *)
Record on_frame (s s' : state) : Prop := mkOnFrame {
  frame_RUNNING : RUNNING s' = RUNNING s;
  frame_INTERVALS : INTERVALS s' = INTERVALS s;
  frame_TIMERS : TIMERS s' = TIMERS s;
  frame_clock : clock s' = clock s;
  frame_inputs : inputs s' = inputs s
}.

(** The iterator is in step with the table: made for its present size,
    and good for as many entries as lie ahead. *)
Definition in_step_with {V : Type} (it : Dict.iter) (d : Dict.t V) : Prop :=
  Dict.it_used it = Dict.len d /\
  Dict.it_len it = length (Dict.items (skipn (Dict.it_pos it) d)).

(** ** More sample handlers and reference definitions *)

(** The word the shift register returns when exactly the buttons picked
    by [held] are pressed: the sum of their bits. *)
Definition gp_encode (held : Z -> bool) : Z :=
  fold_right (fun bit acc => (if held bit then bit else 0) + acc) 0 GAMEPAD_BITS.

(** A handler that cancels itself, and one that cancels the poll. *)
Definition self_cancelling : nat -> Z -> act retval :=
  fun i _ s => (Ok Other, cancel [Fn i] s).

Definition poll_cancelling : nat -> Z -> act retval :=
  fun _ _ s => (Ok Other, cancel [Pad] s).

(** The driver [on] builds for a pin of the board. *)
Definition driver_of (E : env) (button : pyval) : driver :=
  if py_in button (DIGITALIO E) then DigitalInOut button else TouchIn button.

(** A button [on] has a branch for. *)
Definition known (E : env) (button : pyval) : bool :=
  py_in button GAMEPAD || py_in button (DIGITALIO E) || py_in button (TOUCHIO E).

(** The pins among [buttons] that get a driver, each once, in the order
    of their first appearance, given the pins [seen] that have one. *)
Fixpoint new_pins (seen buttons : list pyval) : list pyval :=
  match buttons with
  | [] => []
  | b :: rest =>
      if py_in b seen || py_in b GAMEPAD then new_pins seen rest
      else b :: new_pins (seen ++ [b]) rest
  end.

(** The bindings of a callable in a binding list. *)
Definition bindings_of (fn : handler) (l : list press) : list press :=
  filter (fun p => handler_eqb (handler_of p) fn) l.

(** Every pin in [BUTTONS] is there once, is no member of [GAMEPAD], and
    is paired by position with its own driver in [DIOS]. *)
Record wired (E : env) (s : state) : Prop := mkWired {
  wired_DIOS : DIOS s = map (driver_of E) (BUTTONS s);
  wired_NoDup : NoDup (BUTTONS s);
  wired_no_gamepad : forall b, In b (BUTTONS s) -> py_in b GAMEPAD = false
}.

(** A binding as [on] is given it, and as [PRESSES] holds it. *)
Definition press_of (b : list pyval * handler * Z) : press :=
  let '(buttons, fn, action) := b in (fn, buttons, action).

(** The two fresh lists of a poll, and what the poll leaves in [pressed]:
    the buttons that stay down, then the ones that have just gone down. *)
Definition fresh_down_of (pressed down : list pyval) : list pyval :=
  filter (fun b => negb (py_in b pressed)) down.

Definition fresh_up_of (pressed down : list pyval) : list pyval :=
  filter (fun b => negb (py_in b down)) pressed.

Definition settle (pressed down : list pyval) : list pyval :=
  filter (fun b => py_in b down) pressed ++ filter (fun b => negb (py_in b pressed)) down.

(** The parts of the globals the router reads and writes between
    polls. *)
Definition router_state (s : state)
  : option shiftreg * list pyval * list driver * list press
    * list pyval * list pyval * list reading :=
  (GAMEPADSHIFT s, BUTTONS s, DIOS s, PRESSES s, pad_down s, pad_pressed s, inputs s).

(** What a pass leaves of the entry of a periodic task, and of the entry
    of a one-shot. *)
Definition reanchor (now : Z) (v : Z * Z) : Z * Z :=
  let '(interval, last_called) := v in
  if last_called + interval <=? now then (interval, now) else v.

Definition unexpired (now : Z) (target : Z) : option Z :=
  if target <=? now then None else Some target.

(** ** Applications

    What an application does before it calls [start]: registration calls
    and [on] calls, in any order. *)
Inductive app_call : Type :=
| Register (c : reg_call)
| Bind (buttons : list pyval) (fn : handler) (action : Z).

Definition do_app_call (E : env) (c : app_call) (s : state) : state :=
  match c with
  | Register c => do_call c s
  | Bind buttons fn action => snd (on E buttons fn action s)
  end.

Definition do_app (E : env) (cs : list app_call) (s : state) : state :=
  fold_left (fun acc c => do_app_call E c acc) cs s.





(** Handlers of which the first cancels itself and hands back the
    propagate sentinel, and the others return [None]. *)
Definition leaving_first : nat -> Z -> act retval :=
  fun i _ s =>
    match i with
    | O => (Ok PROPOGATE, cancel [Fn 0%nat] s)
    | _ => (Ok Other, s)
    end.

(** The buttons named by a series of [on] calls, in the order of the
    calls. *)
Definition named_buttons (bs : list (list pyval * handler * Z)) : list pyval :=
  flat_map (fun b => fst (fst b)) bs.

(** A handler that raises, and one that binds the gamepad button A to
    [Fn 1] when it runs. *)
Definition faulty : nat -> Z -> act retval :=
  fun _ _ s => (Raise (Fault 1), s).

Definition binding_gamepad : nat -> Z -> act retval :=
  fun _ _ s => (Ok Other, snd (on (sample_env true quiet) [PInt 2] (Fn 1%nat) DOWN s)).

(** * Properties *)

Ltac run_unfold :=
  unfold bind, gets, modify, ret, raise, starved, lift, record_call;
  cbn [mem calls fst snd].

(** ** Equality tests *)

Lemma pyval_eqb_spec (a b : pyval) : reflect (a = b) (pyval_eqb a b).
Proof.
  destruct a as [i|n|s], b as [j|m|t]; simpl; try (constructor; discriminate).
  - destruct (Nat.eqb_spec i j); constructor; congruence.
  - destruct (Z.eqb_spec n m); constructor; congruence.
  - destruct (String.eqb_spec s t); constructor; congruence.
Qed.

Lemma pyval_eqb_refl (a : pyval) : pyval_eqb a a = true.
Proof. destruct (pyval_eqb_spec a a); congruence. Qed.

Lemma py_in_In (x : pyval) (l : list pyval) : py_in x l = true <-> In x l.
Proof.
  unfold py_in. rewrite existsb_exists. split.
  - intros [y [Hy He]]. destruct (pyval_eqb_spec x y); congruence.
  - intros H. exists x. split; [assumption | apply pyval_eqb_refl].
Qed.

Lemma py_list_eqb_spec (l1 l2 : list pyval) : reflect (l1 = l2) (py_list_eqb l1 l2).
Proof.
  revert l2. induction l1 as [|a r1 IH]; intros [|b r2]; simpl;
    try (constructor; congruence).
  destruct (pyval_eqb_spec a b) as [->|Hne]; simpl.
  - destruct (IH r2) as [->|Hne]; constructor; congruence.
  - constructor; congruence.
Qed.

Lemma handler_eqb_spec (a b : handler) : reflect (a = b) (handler_eqb a b).
Proof.
  destruct a as [i|], b as [j|]; simpl; try (constructor; congruence).
  destruct (Nat.eqb_spec i j); constructor; congruence.
Qed.

Lemma handler_eqb_refl (a : handler) : handler_eqb a a = true.
Proof. destruct (handler_eqb_spec a a); congruence. Qed.

(** ** The wake target *)

Lemma fold_min_le (l : list Z) (a : Z) : fold_left Z.min l a <= a.
Proof.
  revert a. induction l as [|x r IH]; intros a; simpl; [lia|].
  specialize (IH (Z.min a x)). lia.
Qed.

Lemma fold_min_lower (l : list Z) (a x : Z) : In x l -> fold_left Z.min l a <= x.
Proof.
  revert a. induction l as [|y r IH]; intros a Hin; simpl; [destruct Hin|].
  destruct Hin as [->|Hin].
  - pose proof (fold_min_le r (Z.min a x)). lia.
  - apply IH. assumption.
Qed.

Lemma fold_min_in (l : list Z) (a : Z) :
  fold_left Z.min l a = a \/ In (fold_left Z.min l a) l.
Proof.
  revert a. induction l as [|y r IH]; intros a; simpl; [left; reflexivity|].
  destruct (IH (Z.min a y)) as [H|H].
  - rewrite H. destruct (Z.min_spec a y) as [[_ ->]|[_ ->]]; auto.
  - right. right. assumption.
Qed.

Lemma py_min_is_minimum (l : list Z) (m : Z) : py_min l = Some m -> is_minimum m l.
Proof.
  destruct l as [|a r]; simpl; [discriminate|].
  intros [= <-]. split.
  - destruct (fold_min_in r a) as [->|H]; [left; reflexivity | right; assumption].
  - intros x [<-|Hin]; [apply fold_min_le | apply fold_min_lower; assumption].
Qed.

Lemma wake_candidates_deadlines (s : state) : wake_candidates s = deadlines s.
Proof.
  unfold wake_candidates, deadlines, Dict.values. rewrite !map_map. f_equal.
  apply map_ext. intros [fn [interval last_fired]]. simpl. lia.
Qed.

Lemma has_tasks_deadlines (s : state) : has_tasks s = true -> deadlines s <> [].
Proof.
  unfold has_tasks, deadlines, Dict.is_empty, Dict.len. intros H Hnil.
  apply app_eq_nil in Hnil. destruct Hnil as [H1 H2].
  apply map_eq_nil in H1. apply map_eq_nil in H2. rewrite H1, H2 in H.
  discriminate.
Qed.

(** C10.  Whenever some task is registered, the wake target the loop
    computes is the minimum over the deadlines of all tasks: of
    [last_fired + interval] for the periodic ones and of [target] for the
    one-shots. *)
Theorem next_target_is_earliest_deadline (s : state) :
  has_tasks s = true ->
  exists m, next_target_of s = Some m /\ is_minimum m (deadlines s).
Proof.
  intros H. unfold next_target_of. rewrite wake_candidates_deadlines.
  destruct (py_min (deadlines s)) as [m|] eqn:Hm.
  - exists m. split; [reflexivity | apply py_min_is_minimum; assumption].
  - destruct (deadlines s) eqn:Hd; [|discriminate].
    exfalso. revert Hd. apply has_tasks_deadlines. assumption.
Qed.

Lemma next_target_is_earliest_deadline_witness :
  let s := at_ 70 (Fn 2) (every 50 (Fn 1) (every 20 Pad (initial [] []))) in
  has_tasks s = true /\
  exists m, next_target_of s = Some m /\ is_minimum m (deadlines s).
Proof.
  intros s. split; [reflexivity|].
  apply (next_target_is_earliest_deadline s). reflexivity.
Defined.

(** ** Dictionaries *)

Module DictFacts.
Section Values.
Variable V : Type.
Implicit Types (d : Dict.t V) (k : handler) (v : V).

Lemma keys_cons_some d k v : Dict.keys (Some (k, v) :: d) = k :: Dict.keys d.
Proof. reflexivity. Qed.

Lemma keys_cons_none d : Dict.keys (None :: d) = Dict.keys d.
Proof. reflexivity. Qed.

Lemma get_set_same d k v : Dict.get (Dict.set d k v) k = Some v.
Proof.
  induction d as [|[[k' v']|] r IH]; simpl.
  - rewrite handler_eqb_refl. reflexivity.
  - destruct (handler_eqb k' k) eqn:He; simpl; rewrite He; auto.
  - assumption.
Qed.

Lemma keys_set_in d k v : In k (Dict.keys d) -> Dict.keys (Dict.set d k v) = Dict.keys d.
Proof.
  induction d as [|[[k' v']|] r IH]; intros Hin; cbn [Dict.set Dict.remove].
  - destruct Hin.
  - destruct (handler_eqb_spec k' k) as [->|Hne]; [reflexivity|].
    rewrite !keys_cons_some. f_equal. apply IH.
    rewrite keys_cons_some in Hin. destruct Hin; [contradiction | assumption].
  - rewrite !keys_cons_none in *. auto.
Qed.

Lemma keys_set_notin d k v :
  ~ In k (Dict.keys d) -> Dict.keys (Dict.set d k v) = Dict.keys d ++ [k].
Proof.
  induction d as [|[[k' v']|] r IH]; intros Hin; cbn [Dict.set Dict.remove].
  - reflexivity.
  - rewrite keys_cons_some in Hin.
    destruct (handler_eqb_spec k' k) as [->|Hne]; [exfalso; apply Hin; left; reflexivity|].
    rewrite !keys_cons_some. cbn [app]. f_equal. apply IH. intros H. apply Hin. right. assumption.
  - rewrite !keys_cons_none in *. auto.
Qed.

Lemma NoDup_keys_set d k v : NoDup (Dict.keys d) -> NoDup (Dict.keys (Dict.set d k v)).
Proof.
  intros Hnd. destruct (in_dec (fun a b => reflect_dec _ _ (handler_eqb_spec a b)) k (Dict.keys d))
    as [Hin|Hout].
  - rewrite keys_set_in by assumption. assumption.
  - rewrite keys_set_notin by assumption.
    apply NoDup_app; [assumption | constructor; [intros [] | constructor] |].
    intros x Hx [<-|[]]. contradiction.
Qed.

Lemma keys_remove_incl d k x : In x (Dict.keys (Dict.remove d k)) -> In x (Dict.keys d).
Proof.
  induction d as [|[[k' v']|] r IH]; intros Hin; cbn [Dict.remove] in Hin.
  - destruct Hin.
  - destruct (handler_eqb k' k).
    + rewrite keys_cons_none in Hin. rewrite keys_cons_some. right. assumption.
    + rewrite keys_cons_some in *. destruct Hin; [left; assumption | right; auto].
  - rewrite keys_cons_none in *. auto.
Qed.

Lemma NoDup_keys_remove d k : NoDup (Dict.keys d) -> NoDup (Dict.keys (Dict.remove d k)).
Proof.
  induction d as [|[[k' v']|] r IH]; intros Hnd; cbn [Dict.set Dict.remove].
  - constructor.
  - rewrite keys_cons_some in Hnd. inversion Hnd as [|? ? Hout Hnd']; subst.
    destruct (handler_eqb k' k).
    + rewrite keys_cons_none. assumption.
    + rewrite keys_cons_some. constructor; [|auto].
      intros Hin. apply Hout. eapply keys_remove_incl. eassumption.
  - rewrite keys_cons_none in *. auto.
Qed.

Lemma len_set_in d k v : In k (Dict.keys d) -> Dict.len (Dict.set d k v) = Dict.len d.
Proof.
  intros Hin. unfold Dict.len.
  rewrite <- (length_map fst (Dict.items (Dict.set d k v))), <- (length_map fst (Dict.items d)).
  change (length (Dict.keys (Dict.set d k v)) = length (Dict.keys d)).
  rewrite keys_set_in by assumption. reflexivity.
Qed.
End Values.
End DictFacts.

(** ** The two registries *)

Lemma unique_keys_cancel1 (fn : handler) (s : state) :
  unique_keys s -> unique_keys (cancel1 fn s).
Proof.
  intros [H1 H2]. split; simpl.
  - apply DictFacts.NoDup_keys_remove. assumption.
  - apply DictFacts.NoDup_keys_remove. assumption.
Qed.

Lemma unique_keys_cancel (fns : list handler) (s : state) :
  unique_keys s -> unique_keys (cancel fns s).
Proof.
  unfold cancel. revert s. induction fns as [|fn r IH]; intros s H; simpl; [assumption|].
  apply IH. apply unique_keys_cancel1. assumption.
Qed.

Lemma unique_keys_do_call (c : reg_call) (s : state) :
  unique_keys s -> unique_keys (do_call c s).
Proof.
  intros [H1 H2]. destruct c as [fn|interval fn|target fn|target fn|fns]; simpl.
  - split; simpl; [apply DictFacts.NoDup_keys_set|]; assumption.
  - split; simpl; [apply DictFacts.NoDup_keys_set|]; assumption.
  - split; simpl; [|apply DictFacts.NoDup_keys_set]; assumption.
  - unfold after, monotonic. destruct (clock s) as [|t rest]; simpl.
    + split; assumption.
    + split; simpl; [|apply DictFacts.NoDup_keys_set]; assumption.
  - apply unique_keys_cancel. split; assumption.
Qed.

Lemma unique_keys_do_calls (cs : list reg_call) (s : state) :
  unique_keys s -> unique_keys (do_calls cs s).
Proof.
  unfold do_calls. revert s. induction cs as [|c r IH]; intros s H; simpl; [assumption|].
  apply IH. apply unique_keys_do_call. assumption.
Qed.

(** C5, as the code has it.  After any sequence of registration calls a
    callable is held at most once by the periodic registry and at most
    once by the one-shot registry, and registering it again in a registry
    leaves that registry with the new entry for it.  The two registries
    are kept apart: neither registration looks at the other one. *)
Theorem registration_replaces_within_a_registry
        (cs : list reg_call) (clk : list Z) (ins : list reading) (fn : handler) :
  let s := do_calls cs (initial clk ins) in
  NoDup (Dict.keys (INTERVALS s)) /\ NoDup (Dict.keys (TIMERS s)) /\
  (forall interval,
      Dict.get (INTERVALS (every interval fn s)) fn = Some (interval, 0) /\
      NoDup (Dict.keys (INTERVALS (every interval fn s))) /\
      TIMERS (every interval fn s) = TIMERS s) /\
  (forall target,
      Dict.get (TIMERS (at_ target fn s)) fn = Some target /\
      NoDup (Dict.keys (TIMERS (at_ target fn s))) /\
      INTERVALS (at_ target fn s) = INTERVALS s).
Proof.
  intros s.
  assert (H : unique_keys s).
  { apply unique_keys_do_calls. split; constructor. }
  destruct H as [H1 H2]. repeat split; try assumption; simpl.
  - apply DictFacts.get_set_same.
  - apply DictFacts.NoDup_keys_set. assumption.
  - apply DictFacts.get_set_same.
  - apply DictFacts.NoDup_keys_set. assumption.
Qed.

(** C5, as stated, fails: registered as periodic and then as a one-shot,
    a callable is in both registries. *)
Lemma periodic_then_one_shot_in_both :
  ~ exclusive (do_calls [CallEvery 1 (Fn 0); CallAt 5 (Fn 0)] (initial [] [])).
Proof.
  intros H. apply (H (Fn 0)). split; left; reflexivity.
Qed.

(** ** Bindings *)

Lemma matches_empty (action : Z) (fresh_down fresh_up : list pyval) :
  matches [] action fresh_down fresh_up = (action =? DOWN) || (action =? UP).
Proof.
  unfold matches. simpl. rewrite !andb_true_r.
  destruct (action =? DOWN), (action =? UP); reflexivity.
Qed.

(** C6, as the code has it.  [on] called with no button at all is not
    turned down: the loop over the buttons has nothing to do, the binding
    is appended to [PRESSES] with an empty combo, and such a binding
    passes the dispatcher's test for any fresh sets when its action is
    [DOWN] or [UP]. *)
Theorem on_accepts_empty_combo (E : env) (s : state) (fn : handler) (action : Z) :
  on E [] fn action s = (Ok tt, with_PRESSES (PRESSES s ++ [(fn, [], action)]) s) /\
  forall fresh_down fresh_up,
    matches [] action fresh_down fresh_up = (action =? DOWN) || (action =? UP).
Proof.
  split; [reflexivity | apply matches_empty].
Qed.

(** C6, as stated, fails: the call succeeds and the binding list holds a
    binding with an empty combo afterwards. *)
Lemma empty_combo_is_registered :
  let r := on (sample_env true quiet) [] (Fn 0) DOWN (initial [] []) in
  fst r = Ok tt /\ PRESSES (snd r) = [(Fn 0, [], DOWN)] /\
  matches [] DOWN [PPin 4] [] = true.
Proof. repeat split. Qed.

(** C7, at the failing input.  A button that is neither known to [BUTTONS]
    nor a member of [GAMEPAD], [DIGITALIO] or [TOUCHIO], met before any
    other new pin in the same call, prints the warning and then reads the
    local [dio] that no branch has assigned: the call ends in
    [UnboundLocalError] after [BUTTONS] has grown, [DIOS] has not, and no
    binding has been appended. *)
Theorem on_unknown_button_raises
        (E : env) (s : state) (button : pyval) (rest : list pyval)
        (fn : handler) (action : Z) :
  py_in button (BUTTONS s) = false ->
  py_in button GAMEPAD = false ->
  py_in button (DIGITALIO E) = false ->
  py_in button (TOUCHIO E) = false ->
  on E (button :: rest) fn action s =
  (Raise UnboundLocalError,
   with_BUTTONS (BUTTONS s ++ [button]) (print "unknown button" s)).
Proof.
  intros Hb Hg Hd Ht. unfold on. cbn [on_buttons].
  rewrite Hb, Hg, Hd, Ht. reflexivity.
Qed.

Lemma on_unknown_button_raises_witness :
  let E := sample_env true quiet in
  let s := initial [] [] in
  (py_in (PStr "bogus") (BUTTONS s) = false /\
   py_in (PStr "bogus") GAMEPAD = false /\
   py_in (PStr "bogus") (DIGITALIO E) = false /\
   py_in (PStr "bogus") (TOUCHIO E) = false) /\
  on E [PStr "bogus"] (Fn 0) DOWN s =
  (Raise UnboundLocalError,
   with_BUTTONS (BUTTONS s ++ [PStr "bogus"]) (print "unknown button" s)).
Proof.
  intros E s. split.
  - repeat split.
  - apply (@on_unknown_button_raises E s (PStr "bogus") [] (Fn 0) DOWN); reflexivity.
Defined.

(** The same slip after a known pin: the unknown button is paired with the
    driver of the pin before it, and is read as down whenever that pin
    is. *)
Lemma on_unknown_button_borrows_driver :
  let r := on (sample_env true quiet) [PPin 4; PStr "bogus"] (Fn 0) DOWN (initial [] []) in
  fst r = Ok tt /\
  BUTTONS (snd r) = [PPin 4; PStr "bogus"] /\
  DIOS (snd r) = [DigitalInOut (PPin 4); DigitalInOut (PPin 4)] /\
  dio_down_of (reading_of [PPin 4] 0) (BUTTONS (snd r)) (DIOS (snd r))
  = [PPin 4; PStr "bogus"].
Proof. repeat split. Qed.

(** ** The poll without a shift register *)

Lemma poll_without_shift (call : handler -> Z -> run retval) (fuel : nat) (now : Z)
      (w : world) :
  GAMEPADSHIFT (mem w) = None ->
  Gamepad_call call fuel now w = (Raise AttributeError, w).
Proof.
  intros H. unfold Gamepad_call. run_unfold. rewrite H. reflexivity.
Qed.

Lemma invoke_pad_without_shift (E : env) (fuel : nat) (now : Z) (w : world) :
  GAMEPADSHIFT (mem w) = None ->
  invoke E (S fuel) Pad now w
  = (Raise AttributeError, mkWorld (mem w) (calls w ++ [(Pad, now)])).
Proof.
  intros H. cbn [invoke]. unfold bind at 1. unfold record_call at 1.
  unfold bind. rewrite poll_without_shift by exact H. reflexivity.
Qed.

Lemma on_frame_refl (s : state) : on_frame s s.
Proof. constructor; reflexivity. Qed.

Lemma on_frame_trans (s1 s2 s3 : state) : on_frame s1 s2 -> on_frame s2 s3 -> on_frame s1 s3.
Proof. intros [] []. constructor; congruence. Qed.

Lemma on_buttons_frame (E : env) (buttons : list pyval) (dio : option driver) (s : state) :
  on_frame s (snd (on_buttons E buttons dio s)).
Proof.
  revert dio s. induction buttons as [|button rest IH]; intros dio s; cbn [on_buttons].
  - apply on_frame_refl.
  - destruct (py_in button (BUTTONS s)); cbn [negb].
    + apply IH.
    + destruct (py_in button GAMEPAD).
      * eapply on_frame_trans; [|apply IH].
        destruct (GAMEPADSHIFT s); constructor; reflexivity.
      * destruct (py_in button (DIGITALIO E)); [|destruct (py_in button (TOUCHIO E))].
        -- eapply on_frame_trans; [|apply IH]. constructor; reflexivity.
        -- eapply on_frame_trans; [|apply IH]. constructor; reflexivity.
        -- destruct dio as [d|].
           ++ eapply on_frame_trans; [|apply IH]. constructor; reflexivity.
           ++ constructor; reflexivity.
Qed.

Lemma on_buttons_keeps_shift (E : env) (buttons : list pyval) (dio : option driver)
      (s : state) :
  references_gamepad buttons = false ->
  GAMEPADSHIFT (snd (on_buttons E buttons dio s)) = GAMEPADSHIFT s.
Proof.
  revert dio s. induction buttons as [|button rest IH]; intros dio s Href;
    cbn [on_buttons]; [reflexivity|].
  unfold references_gamepad in Href. cbn [existsb] in Href.
  apply orb_false_iff in Href. destruct Href as [Hb Hrest].
  rewrite Hb.
  destruct (py_in button (BUTTONS s)); cbn [negb].
  - apply IH. exact Hrest.
  - destruct (py_in button (DIGITALIO E)); [|destruct (py_in button (TOUCHIO E))].
    + rewrite IH by exact Hrest. reflexivity.
    + rewrite IH by exact Hrest. reflexivity.
    + destruct dio as [d|]; [rewrite IH by exact Hrest|]; reflexivity.
Qed.

Lemma on_frame_on (E : env) (buttons : list pyval) (fn : handler) (action : Z) (s : state) :
  on_frame s (snd (on E buttons fn action s)).
Proof.
  unfold on. pose proof (on_buttons_frame E buttons None s) as H.
  destruct (on_buttons E buttons None s) as [[[]|e|] s1]; cbn [snd] in *;
    try exact H.
  eapply on_frame_trans; [exact H|]. constructor; reflexivity.
Qed.

Lemma on_keeps_shift (E : env) (buttons : list pyval) (fn : handler) (action : Z) (s : state) :
  references_gamepad buttons = false ->
  GAMEPADSHIFT (snd (on E buttons fn action s)) = GAMEPADSHIFT s.
Proof.
  intros Href. unfold on. pose proof (@on_buttons_keeps_shift E buttons None s Href) as H.
  destruct (on_buttons E buttons None s) as [[[]|e|] s1]; cbn [snd] in *; exact H.
Qed.

Lemma do_bindings_frame (E : env) (bs : list (list pyval * handler * Z)) (s : state) :
  on_frame s (do_bindings E bs s).
Proof.
  unfold do_bindings. revert s. induction bs as [|[[buttons fn] action] r IH]; intros s;
    cbn [fold_left].
  - apply on_frame_refl.
  - eapply on_frame_trans; [apply on_frame_on | apply IH].
Qed.

Lemma do_bindings_keeps_shift (E : env) (bs : list (list pyval * handler * Z)) (s : state) :
  Forall (fun b => references_gamepad (fst (fst b)) = false) bs ->
  GAMEPADSHIFT (do_bindings E bs s) = GAMEPADSHIFT s.
Proof.
  unfold do_bindings. revert s. induction bs as [|[[buttons fn] action] r IH]; intros s H;
    cbn [fold_left]; [reflexivity|].
  inversion H as [|? ? Hb Hr]; subst. cbn [fst] in Hb.
  rewrite IH by exact Hr. apply on_keeps_shift. exact Hb.
Qed.

(** ** The loops, one step at a time *)
Lemma loop_S (E : env) (fuel : nat) (w : world) :
  loop E (S fuel) w
  = match iteration E fuel w with
    | (Ok None, w1) => (Ok tt, w1)
    | (Ok (Some _), w1) => loop E fuel w1
    | (Raise e, w1) => (Raise e, w1)
    | (Starved, w1) => (Starved, w1)
    end.
Proof.
  cbn [loop]. unfold bind. destruct (iteration E fuel w) as [[[u|]|e|] w1]; reflexivity.
Qed.

Lemma intervals_loop_S (E : env) (fuel : nat) (it : Dict.iter) (now : Z) (w : world) :
  intervals_loop E (S fuel) it now w
  = match Dict.next (strict E) (INTERVALS (mem w)) it with
    | Dict.Changed => (Raise RuntimeError, w)
    | Dict.Done => (Ok tt, w)
    | Dict.Yield (fn, (interval, last_called)) it' =>
        if last_called + interval <=? now then
          match invoke E fuel fn now w with
          | (Ok _, w1) =>
              intervals_loop E fuel it' now
                (mkWorld (with_INTERVALS (Dict.set (INTERVALS (mem w1)) fn (interval, now))
                                         (mem w1))
                         (calls w1))
          | (Raise e, w1) => (Raise e, w1)
          | (Starved, w1) => (Starved, w1)
          end
        else intervals_loop E fuel it' now w
    end.
Proof.
  cbn [intervals_loop]. run_unfold.
  destruct (Dict.next (strict E) (INTERVALS (mem w)) it) as [| |[fn [interval last_called]] it'];
    try reflexivity.
  destruct (last_called + interval <=? now); [|reflexivity].
  destruct (invoke E fuel fn now w) as [[v|e|] w1]; reflexivity.
Qed.

Lemma timers_loop_S (E : env) (fuel : nat) (it : Dict.iter) (now : Z) (w : world) :
  timers_loop E (S fuel) it now w
  = match Dict.next (strict E) (TIMERS (mem w)) it with
    | Dict.Changed => (Raise RuntimeError, w)
    | Dict.Done => (Ok tt, w)
    | Dict.Yield (fn, target) it' =>
        if target <=? now then
          match invoke E fuel fn now
                       (mkWorld (with_TIMERS (Dict.remove (TIMERS (mem w)) fn) (mem w))
                                (calls w)) with
          | (Ok _, w1) => timers_loop E fuel it' now w1
          | (Raise e, w1) => (Raise e, w1)
          | (Starved, w1) => (Starved, w1)
          end
        else timers_loop E fuel it' now w
    end.
Proof.
  cbn [timers_loop]. run_unfold.
  destruct (Dict.next (strict E) (TIMERS (mem w)) it) as [| |[fn target] it'];
    try reflexivity.
  destruct (target <=? now); [|reflexivity].
  destruct (invoke E fuel fn now _) as [[v|e|] w1]; reflexivity.
Qed.

Lemma fire_pass_eq (E : env) (fuel : nat) (now : Z) (w : world) :
  fire_pass E fuel now w
  = match intervals_loop E fuel (Dict.iter_start (INTERVALS (mem w))) now w with
    | (Ok _, w1) => timers_loop E fuel (Dict.iter_start (TIMERS (mem w1))) now w1
    | (Raise e, w1) => (Raise e, w1)
    | (Starved, w1) => (Starved, w1)
    end.
Proof.
  unfold fire_pass. run_unfold.
  destruct (intervals_loop E fuel _ now w) as [[u|e|] w1]; reflexivity.
Qed.

Lemma iteration_eq (E : env) (fuel : nat) (w : world) :
  iteration E fuel w
  = if Dict.is_empty (TIMERS (mem w)) && Dict.is_empty (INTERVALS (mem w)) then
      (Ok None, mkWorld (print "No functions registered, quitting" (mem w)) (calls w))
    else
      match clock (mem w) with
      | [] => (Starved, w)
      | now :: rest =>
          match fire_pass E fuel now (mkWorld (with_clock rest (mem w)) (calls w)) with
          | (Ok _, w1) =>
              match next_target_of (mem w1) with
              | None => (Raise ValueError, w1)
              | Some next_target =>
                  match wait_until next_target (clock (mem w1)) with
                  | None => (Starved, mkWorld (with_clock [] (mem w1)) (calls w1))
                  | Some rest1 => (Ok (Some tt), mkWorld (with_clock rest1 (mem w1)) (calls w1))
                  end
              end
          | (Raise e, w1) => (Raise e, w1)
          | (Starved, w1) => (Starved, w1)
          end
      end.
Proof.
  unfold iteration. run_unfold.
  destruct (Dict.is_empty (TIMERS (mem w)) && Dict.is_empty (INTERVALS (mem w)));
    [reflexivity|].
  unfold monotonic. destruct w as [s lg]. cbn [mem calls].
  destruct (clock s) as [|now rest]; [reflexivity|].
  destruct (fire_pass E fuel now _) as [[u|e|] w1]; try reflexivity.
  destruct (next_target_of (mem w1)) as [next_target|]; [|reflexivity].
  unfold sleep_until.
  destruct (wait_until next_target (clock (mem w1))); reflexivity.
Qed.

Lemma start_eq (E : env) (fuel : nat) (fn : option handler) (w : world) :
  start E fuel fn w
  = loop E fuel
         (mkWorld (match fn with
                   | Some f => at_ 0 f (every 20 Pad (Gamepad_init (mem w)))
                   | None => every 20 Pad (Gamepad_init (mem w))
                   end) (calls w)).
Proof.
  unfold start. run_unfold. destruct fn; reflexivity.
Qed.

(** The iterator on a registry with one entry, and on an empty one. *)
Lemma next_single_first {V : Type} (strict : bool) (kv : handler * V) :
  Dict.next strict [Some kv] (Dict.iter_start [Some kv])
  = Dict.Yield kv (Dict.mkIter 1 1 0).
Proof.
  unfold Dict.next, Dict.iter_start.
  cbn [Dict.len Dict.items length Dict.it_used Dict.it_pos Dict.it_len Nat.eqb negb
       Dict.seek Nat.pred].
  rewrite !andb_false_r. reflexivity.
Qed.

Lemma next_single_second {V : Type} (strict : bool) (kv : handler * V) :
  Dict.next strict [Some kv] (Dict.mkIter 1 1 0) = Dict.Done.
Proof.
  unfold Dict.next.
  cbn [Dict.len Dict.items length Dict.it_used Dict.it_pos Dict.it_len Nat.eqb negb
       Dict.seek option_map].
  rewrite andb_false_r. reflexivity.
Qed.

Lemma next_empty {V : Type} (strict : bool) :
  Dict.next strict (@nil (option (handler * V)))
            (Dict.iter_start (@nil (option (handler * V)))) = Dict.Done.
Proof.
  unfold Dict.next, Dict.iter_start.
  cbn [Dict.len Dict.items length Dict.it_used Dict.it_pos Nat.eqb negb Dict.seek].
  rewrite andb_false_r. reflexivity.
Qed.

Lemma loop_first_poll_raises (E : env) (s : state) (lg : list (handler * Z))
      (t0 : Z) (clk : list Z) (fuel : nat) :
  INTERVALS s = [Some (Pad, (20, 0))] ->
  clock s = t0 :: clk ->
  GAMEPADSHIFT s = None ->
  20 <= t0 ->
  loop E (S (S (S fuel))) (mkWorld s lg)
  = (Raise AttributeError, mkWorld (with_clock clk s) (lg ++ [(Pad, t0)])).
Proof.
  intros HI HC HG Ht.
  rewrite loop_S, iteration_eq. cbn [mem calls]. rewrite HI, HC.
  replace (Dict.is_empty (TIMERS s) && Dict.is_empty [Some (Pad, (20, 0))]) with false
    by (rewrite andb_false_r; reflexivity).
  rewrite fire_pass_eq, intervals_loop_S. cbn [mem calls with_clock INTERVALS].
  rewrite HI, next_single_first.
  replace (0 + 20 <=? t0) with true by (symmetry; apply Z.leb_le; lia).
  rewrite invoke_pad_without_shift by exact HG.
  reflexivity.
Qed.

(** ** Starting with nothing registered *)

Lemma loop_with_only_the_poll (E : env) (fuel : nat) :
  forall (s : state) (lg : list (handler * Z)),
    INTERVALS s = [Some (Pad, (20, 0))] ->
    TIMERS s = [] ->
    GAMEPADSHIFT s = None ->
    fst (loop E fuel (mkWorld s lg)) = Starved \/
    fst (loop E fuel (mkWorld s lg)) = Raise AttributeError.
Proof.
  induction fuel as [|f IH]; intros s lg HI HT HG; [left; reflexivity|].
  rewrite loop_S, iteration_eq. cbn [mem calls]. rewrite HI, HT.
  cbn [Dict.is_empty Dict.len Dict.items length Nat.eqb andb].
  destruct (clock s) as [|now rest]; [left; reflexivity|].
  rewrite fire_pass_eq. cbn [mem calls with_clock INTERVALS]. rewrite HI.
  destruct f as [|f2]; [left; reflexivity|].
  rewrite intervals_loop_S. cbn [mem calls with_clock INTERVALS].
  rewrite HI, next_single_first.
  destruct (0 + 20 <=? now).
  - destruct f2 as [|f3]; [left; reflexivity|].
    rewrite invoke_pad_without_shift by exact HG. right. reflexivity.
  - destruct f2 as [|f3]; [left; reflexivity|].
    rewrite intervals_loop_S. cbn [mem calls with_clock INTERVALS].
    rewrite HI, next_single_second.
    rewrite timers_loop_S. cbn [mem calls with_clock TIMERS].
    rewrite HT, next_empty.
    unfold next_target_of, wake_candidates. cbn [mem with_clock INTERVALS TIMERS].
    rewrite HI, HT. cbn [Dict.values Dict.items map snd app py_min fold_left].
    cbn [mem calls clock with_clock].
    destruct (wait_until (20 + 0) rest) as [rest1|]; [|left; reflexivity].
    apply IH; assumption.
Qed.

(** C3, at the failing input.  [start()] on the freshly imported module,
    with no task, no timer and no argument, does not return: by the time
    the loop looks at the registries the poll is in [INTERVALS], so the
    test for nothing registered fails, and the run ends in the
    [AttributeError] of the first poll, unless the model's clock readings
    or fuel are used up before the poll is due. *)
Theorem start_with_nothing_registered_does_not_return
        (E : env) (fuel : nat) (clk : list Z) (ins : list reading) :
  fst (start E fuel None (mkWorld (initial clk ins) [])) = Starved \/
  fst (start E fuel None (mkWorld (initial clk ins) [])) = Raise AttributeError.
Proof.
  rewrite start_eq. apply loop_with_only_the_poll; reflexivity.
Qed.

(** The same run with a clock that has passed 20 ms: the poll is due at
    once. *)
Lemma start_with_nothing_registered_raises :
  start (sample_env true quiet) 3 None (mkWorld (initial [1000] []) [])
  = (Raise AttributeError,
     mkWorld (every 20 Pad (initial [] [])) [(Pad, 1000)]).
Proof. reflexivity. Qed.

(** ** Starting without a gamepad binding *)

(** Bindings only.  When the application has made nothing but [on] calls
    and none of them names a member of [GAMEPAD], the poll is the only
    task: called without argument, [start] ends in the [AttributeError] of
    the poll, unless the readings or the fuel of the model are used up
    first; and with a clock that has passed 20 ms the poll is the first
    call the loop makes, with or without argument, and it raises. *)
Lemma start_after_bindings_only
        (E : env) (bs : list (list pyval * handler * Z))
        (clk : list Z) (ins : list reading) (fuel : nat) :
  Forall (fun b => references_gamepad (fst (fst b)) = false) bs ->
  let w := mkWorld (do_bindings E bs (initial clk ins)) [] in
  (fst (start E fuel None w) = Starved \/ fst (start E fuel None w) = Raise AttributeError) /\
  (forall fn t0 rest,
      clk = t0 :: rest ->
      20 <= t0 ->
      exists s',
        start E (S (S (S fuel))) fn w = (Raise AttributeError, mkWorld s' [(Pad, t0)])
        /\ Dict.get (INTERVALS s') Pad = Some (20, 0)
        /\ GAMEPADSHIFT s' = None).
Proof.
  intros Hbs w.
  pose proof (do_bindings_frame E bs (initial clk ins)) as [_ HI HT HC _].
  pose proof (@do_bindings_keeps_shift E bs (initial clk ins) Hbs) as HG.
  unfold w. set (s0 := do_bindings E bs (initial clk ins)) in *.
  cbn [initial INTERVALS TIMERS clock GAMEPADSHIFT] in HI, HT, HC, HG.
  set (s1 := every 20 Pad (Gamepad_init s0)).
  assert (HI1 : INTERVALS s1 = [Some (Pad, (20, 0))]).
  { unfold s1. cbn [every INTERVALS with_INTERVALS Gamepad_init with_pad_pressed with_pad_down].
    rewrite HI. reflexivity. }
  assert (HT1 : TIMERS s1 = []) by exact HT.
  assert (HG1 : GAMEPADSHIFT s1 = None) by exact HG.
  split.
  - rewrite start_eq. cbn [mem calls]. apply loop_with_only_the_poll; assumption.
  - intros fn t0 rest Hclk Ht.
    assert (HC1 : clock s1 = t0 :: rest) by (rewrite <- Hclk; exact HC).
    rewrite start_eq. cbn [mem calls]. fold s1.
    destruct fn as [f|].
    + eexists.
      rewrite (@loop_first_poll_raises E (at_ 0 f s1) [] t0 rest fuel HI1 HC1 HG1 Ht).
      split; [reflexivity|]. split; [|exact HG1].
      cbn [with_clock INTERVALS at_ with_TIMERS]. rewrite HI1. reflexivity.
    + eexists. rewrite (@loop_first_poll_raises E s1 [] t0 rest fuel HI1 HC1 HG1 Ht).
      split; [reflexivity|]. split; [|exact HG1].
      cbn [with_clock INTERVALS]. rewrite HI1. reflexivity.
Qed.


(** ** [stop] *)

(** The test at the top of an iteration reads the two registries and
    nothing else: with a task registered, the loop does not return,
    whatever [RUNNING] holds. *)
Lemma iteration_ignores_RUNNING (E : env) (fuel : nat) (w w' : world) :
  has_tasks (mem w) = true ->
  iteration E fuel (mkWorld (stop (mem w)) (calls w)) <> (Ok None, w').
Proof.
  unfold has_tasks. intros H. apply negb_true_iff in H.
  rewrite iteration_eq. cbn [mem calls stop with_RUNNING TIMERS INTERVALS clock].
  rewrite H.
  destruct (clock (mem w)) as [|now rest]; [discriminate|].
  destruct (fire_pass E fuel now _) as [[u|e|] w1]; try discriminate.
  destruct (next_target_of (mem w1)); [|discriminate].
  destruct (wait_until z (clock (mem w1))); discriminate.
Qed.

(** C1, at the failing input.  The handler [Fn 0], registered with [tick],
    calls [stop()] each time it runs.  After its first call at 100
    [RUNNING] is [False], and the loop still goes through two more
    iterations, at 101 and 102, calling it again in each; the run only
    ends because the clock readings of the model are used up. *)
Theorem loop_goes_on_after_stop :
  let E := sample_env true stopper in
  let ins := [reading_of [] 0; reading_of [] 0] in
  let r := start E 12 None (mkWorld (ticking_app E [100; 100; 101; 101; 102] ins) []) in
  fst r = Starved /\
  RUNNING (mem (snd r)) = false /\
  calls (snd r) = [(Fn 0, 100); (Pad, 100); (Fn 0, 101); (Fn 0, 102)].
Proof. repeat split. Qed.

(** ** The bounce guard *)

Lemma filter_nil_iff {A : Type} (f : A -> bool) (l : list A) :
  filter f l = [] <-> forall x, In x l -> f x = false.
Proof.
  induction l as [|a r IH]; simpl.
  - split; [intros _ x [] | reflexivity].
  - destruct (f a) eqn:Ha.
    + split; [discriminate|]. intros H. specialize (H a (or_introl eq_refl)). congruence.
    + rewrite IH. split.
      * intros H x [<-|Hx]; auto.
      * intros H x Hx. apply H. right. assumption.
Qed.

Lemma in_step_no_fresh (down pressed : list pyval) :
  in_step down pressed ->
  filter (fun b => negb (py_in b pressed)) down = [] /\
  filter (fun b => negb (py_in b down)) pressed = [].
Proof.
  intros H. split; apply filter_nil_iff; intros b Hb; apply negb_false_iff, py_in_In, H;
    assumption.
Qed.

(** A poll whose [down] is not the recorded one: it records it and
    returns. *)
Lemma poll_defers (call : handler -> Z -> run retval) (fuel : nat) (now : Z) (w : world)
      (g : shiftreg) (rd : reading) (rest : list reading) :
  GAMEPADSHIFT (mem w) = Some g ->
  inputs (mem w) = rd :: rest ->
  down_of rd (mem w) <> pad_down (mem w) ->
  Gamepad_call call fuel now w
  = (Ok tt, mkWorld (with_pad_down (down_of rd (mem w)) (with_inputs rest (mem w)))
                    (calls w)).
Proof.
  intros HG HI Hne. unfold Gamepad_call. run_unfold. rewrite HG.
  unfold next_reading. rewrite HI.
  cbn [mem calls BUTTONS DIOS pad_down with_inputs].
  fold (down_of rd (mem w)).
  destruct (py_list_eqb_spec (down_of rd (mem w)) (pad_down (mem w))) as [Heq|_];
    [contradiction|].
  reflexivity.
Qed.

(** A poll whose [down] is the recorded one and holds the same buttons as
    the confirmed set: nothing is fresh, no binding is looked at. *)
Lemma poll_steady (call : handler -> Z -> run retval) (fuel : nat) (now : Z) (w : world)
      (g : shiftreg) (rd : reading) (rest : list reading) :
  GAMEPADSHIFT (mem w) = Some g ->
  inputs (mem w) = rd :: rest ->
  down_of rd (mem w) = pad_down (mem w) ->
  in_step (pad_down (mem w)) (pad_pressed (mem w)) ->
  Gamepad_call call fuel now w = (Ok tt, mkWorld (with_inputs rest (mem w)) (calls w)).
Proof.
  intros HG HI Heq Hstep. unfold Gamepad_call. run_unfold. rewrite HG.
  unfold next_reading. rewrite HI.
  cbn [mem calls BUTTONS DIOS pad_down pad_pressed with_inputs].
  fold (down_of rd (mem w)). rewrite Heq.
  destruct (py_list_eqb_spec (pad_down (mem w)) (pad_down (mem w))) as [_|Hne];
    [|contradiction].
  cbn [negb mem calls pad_pressed with_inputs].
  destruct (in_step_no_fresh Hstep) as [-> ->]. reflexivity.
Qed.

(** C9.  With the shift register in place: a poll whose freshly read
    [down] differs from the recorded one only records it, so the confirmed
    set is left alone and no handler is called; and when one reading
    departs from a settled state and the next ones are back to it, none of
    the three polls changes the confirmed set or calls a handler. *)
Theorem single_noisy_poll_is_not_a_transition
        (call : handler -> Z -> run retval) (fuel : nat) (w : world) (g : shiftreg) :
  GAMEPADSHIFT (mem w) = Some g ->
  (forall now rd rest,
      inputs (mem w) = rd :: rest ->
      down_of rd (mem w) <> pad_down (mem w) ->
      exists w',
        Gamepad_call call fuel now w = (Ok tt, w') /\
        calls w' = calls w /\
        pad_pressed (mem w') = pad_pressed (mem w) /\
        pad_down (mem w') = down_of rd (mem w)) /\
  (forall t1 t2 t3 noisy back again rest,
      inputs (mem w) = noisy :: back :: again :: rest ->
      in_step (pad_down (mem w)) (pad_pressed (mem w)) ->
      down_of noisy (mem w) <> pad_down (mem w) ->
      down_of back (mem w) = pad_down (mem w) ->
      down_of again (mem w) = pad_down (mem w) ->
      exists w',
        three_polls call fuel t1 t2 t3 w = (Ok tt, w') /\
        calls w' = calls w /\
        pad_pressed (mem w') = pad_pressed (mem w) /\
        pad_down (mem w') = pad_down (mem w) /\
        inputs (mem w') = rest).
Proof.
  intros HG. split.
  - intros now rd rest HI Hne. eexists. split; [eapply poll_defers; eassumption|].
    repeat split.
  - intros t1 t2 t3 noisy back again rest HI Hstep Hn Hb Ha.
    unfold three_polls, bind.
    rewrite (@poll_defers call fuel t1 w g noisy (back :: again :: rest) HG HI Hn).
    set (w1 := mkWorld (with_pad_down (down_of noisy (mem w))
                                      (with_inputs (back :: again :: rest) (mem w))) (calls w)).
    assert (Hb1 : down_of back (mem w1) <> pad_down (mem w1)).
    { change (down_of back (mem w) <> down_of noisy (mem w)).
      rewrite Hb. intros H. apply Hn. symmetry. exact H. }
    rewrite (@poll_defers call fuel t2 w1 g back (again :: rest) HG eq_refl Hb1).
    set (w2 := mkWorld (with_pad_down (down_of back (mem w1))
                                      (with_inputs (again :: rest) (mem w1))) (calls w1)).
    assert (Hd2 : pad_down (mem w2) = pad_down (mem w)).
    { unfold w2, w1. cbn [mem pad_down with_pad_down]. exact Hb. }
    assert (Ha2 : down_of again (mem w2) = pad_down (mem w2)).
    { rewrite Hd2. exact Ha. }
    assert (Hs2 : in_step (pad_down (mem w2)) (pad_pressed (mem w2))).
    { rewrite Hd2. exact Hstep. }
    rewrite (@poll_steady call fuel t3 w2 g again rest HG eq_refl Ha2 Hs2).
    eexists. split; [reflexivity|]. repeat split. exact Hd2.
Qed.

Lemma single_noisy_poll_is_not_a_transition_witness :
  let E := sample_env true quiet in
  let noisy := reading_of [PPin 4] 0 in
  let quiet_pins := reading_of [] 0 in
  let w := mkWorld (two_button_app E [] [noisy; quiet_pins; quiet_pins]) [] in
  GAMEPADSHIFT (mem w) = Some GamePadShift /\
  exists w',
    three_polls (invoke E 1) 2 10 30 50 w = (Ok tt, w') /\
    calls w' = calls w /\
    pad_pressed (mem w') = pad_pressed (mem w) /\
    pad_down (mem w') = pad_down (mem w) /\
    inputs (mem w') = [].
Proof.
  intros E noisy quiet_pins w.
  assert (HG : GAMEPADSHIFT (mem w) = Some GamePadShift) by reflexivity.
  split; [exact HG|].
  destruct (@single_noisy_poll_is_not_a_transition (invoke E 1) 2 w GamePadShift HG)
    as [_ H].
  apply (H 10 30 50 noisy quiet_pins quiet_pins []).
  - reflexivity.
  - intros b. split; intros [].
  - discriminate.
  - reflexivity.
  - reflexivity.
Defined.

(** ** Dispatch *)

Lemma dispatch_S (call : handler -> Z -> run retval) (fuel idx : nat)
      (fresh_down fresh_up : list pyval) (now : Z) (w : world) :
  dispatch call (S fuel) idx fresh_down fresh_up now w
  = match nth_error (PRESSES (mem w)) idx with
    | None => (Ok tt, w)
    | Some p =>
        if fires fresh_down fresh_up p then
          match call (handler_of p) now w with
          | (Ok PROPOGATE, w1) => dispatch call fuel (S idx) fresh_down fresh_up now w1
          | (Ok Other, w1) => (Ok tt, w1)
          | (Raise e, w1) => (Raise e, w1)
          | (Starved, w1) => (Starved, w1)
          end
        else dispatch call fuel (S idx) fresh_down fresh_up now w
    end.
Proof.
  cbn [dispatch]. run_unfold.
  destruct (nth_error (PRESSES (mem w)) idx) as [[[fn buttons] action]|]; [|reflexivity].
  unfold fires, matches, handler_of. cbn [fst snd].
  destruct ((action =? DOWN) && forallb (fun b => py_in b fresh_down) buttons).
  - destruct (call fn now w) as [[[|]|e|] w1]; reflexivity.
  - destruct ((action =? UP) && forallb (fun b => py_in b fresh_up) buttons).
    + destruct (call fn now w) as [[[|]|e|] w1]; reflexivity.
    + reflexivity.
Qed.


Section DispatchFacts.
Variable call : handler -> Z -> run retval.
Variables fresh_down fresh_up : list pyval.
Variable now : Z.

(** The handlers leave the binding list as it is. *)
Hypothesis call_keeps_PRESSES :
  forall fn t w, PRESSES (mem (snd (call fn t w))) = PRESSES (mem w).

End DispatchFacts.



(** ** What calling a handler leaves alone

    A part of the globals that the handler bodies do not change, and that
    is none of the fields the router writes, is the same after a call. *)
Section Frame.
Variable E : env.
Variable X : Type.
Variable part : state -> X.

Hypothesis part_pad_down : forall v s, part (with_pad_down v s) = part s.
Hypothesis part_pad_pressed : forall v s, part (with_pad_pressed v s) = part s.
Hypothesis part_inputs : forall v s, part (with_inputs v s) = part s.
Hypothesis part_body : forall i t s, part (snd (body E i t s)) = part s.

Lemma dispatch_keeps (call : handler -> Z -> run retval)
      (fresh_down fresh_up : list pyval) (now : Z) :
  (forall fn t w, part (mem (snd (call fn t w))) = part (mem w)) ->
  forall (fuel idx : nat) (w : world),
    part (mem (snd (dispatch call fuel idx fresh_down fresh_up now w))) = part (mem w).
Proof.
  intros Hcall. induction fuel as [|f IH]; intros idx w; [reflexivity|].
  rewrite dispatch_S.
  destruct (nth_error (PRESSES (mem w)) idx) as [p|]; [|reflexivity].
  destruct (fires fresh_down fresh_up p); [|apply IH].
  pose proof (Hcall (handler_of p) now w) as Hk.
  destruct (call (handler_of p) now w) as [[[|]|e|] w1]; cbn [snd] in *; try exact Hk.
  rewrite IH. exact Hk.
Qed.

Lemma Gamepad_call_keeps (call : handler -> Z -> run retval) (fuel : nat) (now : Z) :
  (forall fn t w, part (mem (snd (call fn t w))) = part (mem w)) ->
  forall w : world, part (mem (snd (Gamepad_call call fuel now w))) = part (mem w).
Proof.
  intros Hcall w. unfold Gamepad_call. run_unfold.
  destruct (GAMEPADSHIFT (mem w)); [|reflexivity].
  unfold next_reading. destruct (inputs (mem w)) as [|rd rest]; [reflexivity|].
  cbn [mem calls BUTTONS DIOS pad_down pad_pressed with_inputs].
  match goal with |- context [negb (py_list_eqb ?a ?b)] => destruct (py_list_eqb a b) end;
    cbn [negb].
  2:{ cbn [snd mem]. rewrite part_pad_down, part_inputs. reflexivity. }
  match goal with |- context [nonempty ?l] => destruct (nonempty l) end;
    cbn [mem calls pad_pressed with_pad_pressed].
  - match goal with |- context [nonempty ?l] => destruct (nonempty l) end.
    + match goal with |- context [remove_each ?a ?b] => destruct (remove_each a b) end;
        cbn [mem calls orb negb].
      * rewrite dispatch_keeps by exact Hcall. cbn [mem].
        rewrite !part_pad_pressed, part_inputs. reflexivity.
      * cbn [snd mem]. rewrite part_pad_pressed, part_inputs. reflexivity.
    + cbn [orb negb]. rewrite dispatch_keeps by exact Hcall. cbn [mem].
      rewrite part_pad_pressed, part_inputs. reflexivity.
  - match goal with |- context [nonempty ?l] => destruct (nonempty l) end.
    + match goal with |- context [remove_each ?a ?b] => destruct (remove_each a b) end;
        cbn [mem calls orb negb].
      * rewrite dispatch_keeps by exact Hcall. cbn [mem].
        rewrite part_pad_pressed, part_inputs. reflexivity.
      * cbn [snd mem]. rewrite part_inputs. reflexivity.
    + cbn [orb negb snd mem]. rewrite part_inputs. reflexivity.
Qed.

Lemma invoke_keeps (fuel : nat) :
  forall (fn : handler) (t : Z) (w : world),
    part (mem (snd (invoke E fuel fn t w))) = part (mem w).
Proof.
  induction fuel as [|f IH]; intros fn t w; [reflexivity|].
  cbn [invoke]. unfold bind at 1. unfold record_call at 1. cbn [mem calls].
  destruct fn as [i|].
  - unfold lift. cbn [mem calls].
    pose proof (part_body i t (mem w)) as Hb.
    destruct (body E i t (mem w)) as [r s1]. exact Hb.
  - unfold bind, ret.
    pose proof (@Gamepad_call_keeps (invoke E f) f t IH
                  (mkWorld (mem w) (calls w ++ [(Pad, t)]))) as Hg.
    destruct (Gamepad_call (invoke E f) f t _) as [[u|e|] w1]; exact Hg.
Qed.
End Frame.



(** The three bindings on one button: the first handler propagates, the
    second does not, the third is not called. *)
Lemma propagation_stops_at_second_binding :
  let E := sample_env true first_propagates in
  let w := mkWorld (with_PRESSES three_on_one_button (initial [] [])) [] in
  walk (invoke E 1) three_on_one_button [PPin 4] [] 7 w
  = (Ok [(Fn 0, PROPOGATE); (Fn 1, Other)],
     mkWorld (mem w) [(Fn 0, 7); (Fn 1, 7)]) /\
  dispatch (invoke E 1) 4 0 [PPin 4] [] 7 w
  = (Ok tt, mkWorld (mem w) [(Fn 0, 7); (Fn 1, 7)]).
Proof. split; reflexivity. Qed.

(** ** The fire pass *)

Module IterFacts.
Section Values.
Variable V : Type.
Implicit Types (d : Dict.t V) (k : handler) (v : V).

Lemma seek_none d : forall p, Dict.seek d p = None -> Dict.items (skipn p d) = [].
Proof.
  induction d as [|e r IH]; intros p H.
  - destruct p; reflexivity.
  - destruct p as [|p]; cbn [Dict.seek] in H.
    + destruct e as [kv|]; [discriminate|].
      destruct (Dict.seek r 0) as [[i kv]|] eqn:Hs; [discriminate|].
      cbn [skipn Dict.items]. apply (IH 0%nat). exact Hs.
    + destruct (Dict.seek r p) as [[i kv]|] eqn:Hs; [discriminate|].
      cbn [skipn]. apply IH. exact Hs.
Qed.

Lemma seek_some d : forall p q kv,
    Dict.seek d p = Some (q, kv) ->
    Dict.items (skipn p d) = kv :: Dict.items (skipn q d).
Proof.
  induction d as [|e r IH]; intros p q kv H; [discriminate|].
  destruct p as [|p]; cbn [Dict.seek] in H.
  - destruct e as [kv0|].
    + injection H as <- <-. reflexivity.
    + destruct (Dict.seek r 0) as [[i kv1]|] eqn:Hs; [|discriminate].
      injection H as <- <-. cbn [skipn Dict.items]. apply (IH 0%nat). exact Hs.
  - destruct (Dict.seek r p) as [[i kv1]|] eqn:Hs; [|discriminate].
    injection H as <- <-. cbn [skipn]. apply IH. exact Hs.
Qed.

Lemma seek_set d : forall p q k v v',
    Dict.seek d p = Some (q, (k, v)) ->
    skipn q (Dict.set d k v') = skipn q d /\ Dict.len (Dict.set d k v') = Dict.len d.
Proof.
  unfold Dict.len.
  induction d as [|e r IH]; intros p q k v v' H; [discriminate|].
  destruct p as [|p]; cbn [Dict.seek] in H.
  - destruct e as [[k0 v0]|].
    + injection H as <- <- <-. cbn [Dict.set]. rewrite handler_eqb_refl. split; reflexivity.
    + destruct (Dict.seek r 0) as [[i kv1]|] eqn:Hs; [|discriminate].
      injection H as <- ->. cbn [Dict.set skipn Dict.items]. eapply IH. exact Hs.
  - destruct (Dict.seek r p) as [[i kv1]|] eqn:Hs; [|discriminate].
    injection H as <- ->. destruct e as [[k0 v0]|]; cbn [Dict.set].
    + destruct (handler_eqb k0 k).
      * split; reflexivity.
      * cbn [skipn Dict.items length]. destruct (IH _ _ _ _ v' Hs) as [H1 H2].
        split; [exact H1 | rewrite H2; reflexivity].
    + cbn [skipn Dict.items]. eapply IH. exact Hs.
Qed.

Lemma seek_remove d : forall p q k v,
    Dict.seek d p = Some (q, (k, v)) ->
    skipn q (Dict.remove d k) = skipn q d.
Proof.
  induction d as [|e r IH]; intros p q k v H; [discriminate|].
  destruct p as [|p]; cbn [Dict.seek] in H.
  - destruct e as [[k0 v0]|].
    + injection H as <- <- <-. cbn [Dict.remove]. rewrite handler_eqb_refl. reflexivity.
    + destruct (Dict.seek r 0) as [[i kv1]|] eqn:Hs; [|discriminate].
      injection H as <- ->. cbn [Dict.remove skipn]. eapply IH. exact Hs.
  - destruct (Dict.seek r p) as [[i kv1]|] eqn:Hs; [|discriminate].
    injection H as <- ->. destruct e as [[k0 v0]|]; cbn [Dict.remove].
    + destruct (handler_eqb k0 k); cbn [skipn]; [reflexivity|]. eapply IH. exact Hs.
    + cbn [skipn]. eapply IH. exact Hs.
Qed.
End Values.
End IterFacts.

Lemma snapshot_intervals_S (E : env) (fuel : nat) (now : Z)
      (snap : list (handler * (Z * Z))) (w : world) :
  snapshot_intervals E (S fuel) now snap w
  = match snap with
    | [] => (Ok tt, w)
    | (fn, (interval, last_called)) :: rest =>
        if last_called + interval <=? now then
          match invoke E fuel fn now w with
          | (Ok _, w1) =>
              snapshot_intervals E fuel now rest
                (mkWorld (with_INTERVALS (Dict.set (INTERVALS (mem w1)) fn (interval, now))
                                         (mem w1))
                         (calls w1))
          | (Raise e, w1) => (Raise e, w1)
          | (Starved, w1) => (Starved, w1)
          end
        else snapshot_intervals E fuel now rest w
    end.
Proof.
  cbn [snapshot_intervals]. destruct snap as [|[fn [interval last_called]] rest];
    [reflexivity|].
  run_unfold. destruct (last_called + interval <=? now); [|reflexivity].
  destruct (invoke E fuel fn now w) as [[v|e|] w1]; reflexivity.
Qed.

Lemma snapshot_timers_S (E : env) (fuel : nat) (now : Z)
      (snap : list (handler * Z)) (w : world) :
  snapshot_timers E (S fuel) now snap w
  = match snap with
    | [] => (Ok tt, w)
    | (fn, target) :: rest =>
        if target <=? now then
          match invoke E fuel fn now
                       (mkWorld (with_TIMERS (Dict.remove (TIMERS (mem w)) fn) (mem w))
                                (calls w)) with
          | (Ok _, w1) => snapshot_timers E fuel now rest w1
          | (Raise e, w1) => (Raise e, w1)
          | (Starved, w1) => (Starved, w1)
          end
        else snapshot_timers E fuel now rest w
    end.
Proof.
  cbn [snapshot_timers]. destruct snap as [|[fn target] rest]; [reflexivity|].
  run_unfold. destruct (target <=? now); [|reflexivity].
  destruct (invoke E fuel fn now _) as [[v|e|] w1]; reflexivity.
Qed.

Section QuietHandlers.
Variable E : env.
Variable now : Z.

(** No handler body registers or cancels a task. *)
Hypothesis body_keeps_INTERVALS :
  forall i t s, INTERVALS (snd (body E i t s)) = INTERVALS s.
Hypothesis body_keeps_TIMERS :
  forall i t s, TIMERS (snd (body E i t s)) = TIMERS s.

Lemma invoke_keeps_INTERVALS (fuel : nat) (fn : handler) (t : Z) (w : world) :
  INTERVALS (mem (snd (invoke E fuel fn t w))) = INTERVALS (mem w).
Proof. apply (@invoke_keeps E _ INTERVALS); auto. Qed.

Lemma invoke_keeps_TIMERS (fuel : nat) (fn : handler) (t : Z) (w : world) :
  TIMERS (mem (snd (invoke E fuel fn t w))) = TIMERS (mem w).
Proof. apply (@invoke_keeps E _ TIMERS); auto. Qed.

Lemma iter_start_in_step {V : Type} (d : Dict.t V) : in_step_with (Dict.iter_start d) d.
Proof. split; reflexivity. Qed.

Lemma next_in_step {V : Type} (strict : bool) (it : Dict.iter) (d : Dict.t V) :
  in_step_with it d ->
  Dict.next strict d it
  = match Dict.seek d (Dict.it_pos it) with
    | None => Dict.Done
    | Some (q, kv) => Dict.Yield kv (Dict.mkIter q (Dict.it_used it) (Nat.pred (Dict.it_len it)))
    end.
Proof.
  intros [Hused Hlen]. unfold Dict.next. rewrite Hused, Nat.eqb_refl. cbn [negb].
  rewrite andb_false_r.
  destruct (Dict.seek d (Dict.it_pos it)) as [[q kv]|] eqn:Hs; [|reflexivity].
  rewrite (@IterFacts.seek_some _ _ _ _ _ Hs) in Hlen. rewrite Hlen.
  cbn [length Nat.eqb]. rewrite andb_false_r. reflexivity.
Qed.

Lemma next_lenient {V : Type} (it : Dict.iter) (d : Dict.t V) :
  Dict.next false d it
  = match Dict.seek d (Dict.it_pos it) with
    | None => Dict.Done
    | Some (q, kv) => Dict.Yield kv (Dict.mkIter q (Dict.it_used it) (Nat.pred (Dict.it_len it)))
    end.
Proof. reflexivity. Qed.

Lemma intervals_loop_snapshot (fuel : nat) :
  forall (it : Dict.iter) (w : world),
    in_step_with it (INTERVALS (mem w)) ->
    intervals_loop E fuel it now w
    = snapshot_intervals E fuel now
        (Dict.items (skipn (Dict.it_pos it) (INTERVALS (mem w)))) w.
Proof.
  induction fuel as [|f IH]; intros it w Hstep; [reflexivity|].
  rewrite intervals_loop_S, snapshot_intervals_S, (next_in_step _ Hstep).
  destruct Hstep as [Hused Hlen].
  destruct (Dict.seek (INTERVALS (mem w)) (Dict.it_pos it))
    as [[q [fn [interval last_called]]]|] eqn:Hs.
  - rewrite (@IterFacts.seek_some _ _ _ _ _ Hs) in *.
    destruct (last_called + interval <=? now).
    + pose proof (invoke_keeps_INTERVALS f fn now w) as Hk.
      destruct (invoke E f fn now w) as [[v|e|] w1]; cbn [snd] in Hk; try reflexivity.
      destruct (@IterFacts.seek_set _ _ _ _ _ _ (interval, now) Hs) as [Hskip Hsame].
      rewrite IH; cbn [Dict.it_used Dict.it_pos Dict.it_len mem INTERVALS with_INTERVALS];
        rewrite Hk.
      * rewrite Hskip. reflexivity.
      * split; cbn [Dict.it_used Dict.it_pos Dict.it_len].
        -- rewrite Hsame. exact Hused.
        -- rewrite Hskip, Hlen. reflexivity.
    + rewrite IH; [reflexivity|].
      split; cbn [Dict.it_used Dict.it_pos Dict.it_len]; [exact Hused|].
      rewrite Hlen. reflexivity.
  - rewrite (@IterFacts.seek_none _ _ _ Hs). reflexivity.
Qed.

Lemma timers_loop_snapshot (fuel : nat) :
  forall (it : Dict.iter) (w : world),
    strict E = false \/
    (in_step_with it (TIMERS (mem w)) /\
     filter (due_timer now)
            (Dict.items (skipn (Dict.it_pos it) (TIMERS (mem w)))) = []) ->
    timers_loop E fuel it now w
    = snapshot_timers E fuel now
        (Dict.items (skipn (Dict.it_pos it) (TIMERS (mem w)))) w.
Proof.
  induction fuel as [|f IH]; intros it w Hcase; [reflexivity|].
  rewrite timers_loop_S, snapshot_timers_S.
  assert (Hnext : Dict.next (strict E) (TIMERS (mem w)) it
                  = match Dict.seek (TIMERS (mem w)) (Dict.it_pos it) with
                    | None => Dict.Done
                    | Some (q, kv) =>
                        Dict.Yield kv (Dict.mkIter q (Dict.it_used it)
                                                   (Nat.pred (Dict.it_len it)))
                    end).
  { destruct Hcase as [->|[Hstep _]]; [apply next_lenient | apply next_in_step, Hstep]. }
  rewrite Hnext.
  destruct (Dict.seek (TIMERS (mem w)) (Dict.it_pos it)) as [[q [fn target]]|] eqn:Hs.
  - rewrite (@IterFacts.seek_some _ _ _ _ _ Hs) in *.
    destruct (target <=? now) eqn:Hdue.
    + destruct Hcase as [Hstrict|[_ Hnone]].
      2:{ cbn [filter due_timer] in Hnone. rewrite Hdue in Hnone. discriminate. }
      pose proof (invoke_keeps_TIMERS f fn now
                    (mkWorld (with_TIMERS (Dict.remove (TIMERS (mem w)) fn) (mem w))
                             (calls w))) as Hk.
      destruct (invoke E f fn now _) as [[v|e|] w1]; cbn [snd mem TIMERS with_TIMERS] in Hk;
        try reflexivity.
      rewrite IH by (left; exact Hstrict).
      cbn [Dict.it_pos]. rewrite Hk, (@IterFacts.seek_remove _ _ _ _ _ _ Hs). reflexivity.
    + rewrite IH; [reflexivity|].
      destruct Hcase as [Hstrict|[[Hused Hlen] Hnone]]; [left; exact Hstrict|right].
      cbn [filter due_timer] in Hnone. rewrite Hdue in Hnone.
      split; [|exact Hnone].
      split; cbn [Dict.it_used Dict.it_pos Dict.it_len]; [exact Hused|].
      rewrite (@IterFacts.seek_some _ _ _ _ _ Hs) in Hlen. rewrite Hlen. reflexivity.
  - rewrite (@IterFacts.seek_none _ _ _ Hs). reflexivity.
Qed.

Lemma snapshot_intervals_keeps_TIMERS (fuel : nat) :
  forall (snap : list (handler * (Z * Z))) (w : world),
    TIMERS (mem (snd (snapshot_intervals E fuel now snap w))) = TIMERS (mem w).
Proof.
  induction fuel as [|f IH]; intros snap w; [reflexivity|].
  rewrite snapshot_intervals_S.
  destruct snap as [|[fn [interval last_called]] rest]; [reflexivity|].
  destruct (last_called + interval <=? now); [|apply IH].
  pose proof (invoke_keeps_TIMERS f fn now w) as Hk.
  destruct (invoke E f fn now w) as [[v|e|] w1]; cbn [snd] in *; try exact Hk.
  rewrite IH. exact Hk.
Qed.
End QuietHandlers.

Section ReturningHandlers.
Variable E : env.
Variable now : Z.

(** No handler body raises. *)
Hypothesis body_returns : forall i t s, exists v, fst (body E i t s) = Ok v.



End ReturningHandlers.



(** The pass of the witness, run: the two periodic tasks are called, the
    one-shot set for 500 is not. *)
Lemma quiet_pass_calls_the_due_tasks :
  let E := sample_env true quiet in
  let w := mkWorld (every 50 (Fn 1) (every 20 (Fn 0) (at_ 500 (Fn 2) (initial [] [])))) [] in
  fst (fire_pass E 4 100 w) = Ok tt /\
  calls (snd (fire_pass E 4 100 w)) = [(Fn 0, 100); (Fn 1, 100)].
Proof. split; reflexivity. Qed.

(** A handler that cancels a task the loop has not reached yet and
    registers a new one in its place: the registry has the size it had,
    and the new task is called in the same pass, on either kind of
    host. *)
Lemma replacing_task_runs_in_pass :
  let w := mkWorld replacing_app [] in
  (let r := fire_pass (sample_env true scheduling) 6 100 w in
   fst r = Ok tt /\ calls (snd r) = [(Fn 6, 100); (Fn 8, 100)]) /\
  (let r := fire_pass (sample_env false scheduling) 6 100 w in
   fst r = Ok tt /\ calls (snd r) = [(Fn 6, 100); (Fn 8, 100)]) /\
  Dict.keys (INTERVALS (mem w)) = [Fn 6; Fn 7] /\ Dict.keys (TIMERS (mem w)) = [].
Proof. repeat split. Qed.

(** A one-shot scheduled by a handler during the pass, with a target that
    has passed: the host that checks raises [RuntimeError] when the loop
    comes upon the new entry, the host that does not check calls the new
    task in the same pass. *)
Lemma one_shot_scheduled_in_pass :
  let w := mkWorld (at_ 0 (Fn 1) (initial [] [])) [] in
  (let r := fire_pass (sample_env true scheduling) 6 100 w in
   fst r = Raise RuntimeError /\ calls (snd r) = [(Fn 1, 100)]) /\
  (let r := fire_pass (sample_env false scheduling) 6 100 w in
   fst r = Ok tt /\ calls (snd r) = [(Fn 1, 100); (Fn 2, 100)]).
Proof. repeat split. Qed.

(** A periodic task registered by a handler during the pass: the host
    that checks raises [RuntimeError] at the next step of the loop, the
    host that does not check calls the new task in the same pass. *)
Lemma periodic_registered_in_pass :
  let w := mkWorld (every 10 (Fn 3) (initial [] [])) [] in
  (let r := fire_pass (sample_env true scheduling) 6 100 w in
   fst r = Raise RuntimeError /\ calls (snd r) = [(Fn 3, 100)]) /\
  (let r := fire_pass (sample_env false scheduling) 6 100 w in
   fst r = Ok tt /\ calls (snd r) = [(Fn 3, 100); (Fn 4, 100)]).
Proof. repeat split. Qed.

(** A one-shot that is due and whose handler schedules nothing: the loop
    has deleted its entry, and the host that checks raises at the next
    step. *)
Lemma due_one_shot_on_checking_host :
  let w := mkWorld (at_ 0 (Fn 0) (initial [] [])) [] in
  (let r := fire_pass (sample_env true quiet) 6 100 w in
   fst r = Raise RuntimeError /\ calls (snd r) = [(Fn 0, 100)]) /\
  (let r := fire_pass (sample_env false quiet) 6 100 w in
   fst r = Ok tt /\ calls (snd r) = [(Fn 0, 100)]).
Proof. repeat split. Qed.



(** * Further properties *)

(** ** Waiting *)

(** X1.  When the waiting loop at the end of an iteration comes to an
    end, the clock reading that ended it has reached [next_target], and
    every reading taken before it was short of it. *)
Theorem wait_until_reaches_target (next_target : Z) (clk rest : list Z) :
  wait_until next_target clk = Some rest ->
  exists early t,
    clk = early ++ t :: rest /\
    Forall (fun x => x < next_target) early /\
    next_target <= t.
Proof.
  revert rest. induction clk as [|t0 clk IH]; intros rest H; cbn [wait_until] in H.
  - discriminate.
  - destruct (0 <? next_target - t0) eqn:Hs.
    + destruct (IH rest H) as (early & t & -> & Hearly & Ht).
      exists (t0 :: early), t. split; [reflexivity|]. split; [|exact Ht].
      constructor; [|exact Hearly]. apply Z.ltb_lt in Hs. lia.
    + injection H as <-. exists [], t0. split; [reflexivity|]. split; [constructor|].
      apply Z.ltb_ge in Hs. lia.
Qed.

Lemma wait_until_reaches_target_witness :
  wait_until 120 [100; 110; 125; 130] = Some [130] /\
  exists early t,
    [100; 110; 125; 130] = early ++ t :: [130] /\
    Forall (fun x => x < 120) early /\
    120 <= t.
Proof.
  assert (H : wait_until 120 [100; 110; 125; 130] = Some [130]) by reflexivity.
  split; [exact H|].
  exact (@wait_until_reaches_target 120 [100; 110; 125; 130] [130] H).
Defined.

(** ** The shift-register word *)

Lemma filter_cons_app {A : Type} (f : A -> bool) (x : A) (l : list A) :
  filter f (x :: l) = (if f x then [x] else []) ++ filter f l.
Proof. cbn [filter]. destruct (f x); reflexivity. Qed.

Lemma gp_down_of_sum (b2 b1 b4 b8 b16 b32 b64 b128 : bool) :
  gp_down_of ((if b2 then 2 else 0) + ((if b1 then 1 else 0) + ((if b4 then 4 else 0)
              + ((if b8 then 8 else 0) + ((if b16 then 16 else 0)
              + ((if b32 then 32 else 0) + ((if b64 then 64 else 0)
              + ((if b128 then 128 else 0) + 0))))))))
  = map PInt ((if b2 then [2] else []) ++ (if b1 then [1] else [])
              ++ (if b4 then [4] else []) ++ (if b8 then [8] else [])
              ++ (if b16 then [16] else []) ++ (if b32 then [32] else [])
              ++ (if b64 then [64] else []) ++ (if b128 then [128] else []) ++ []).
Proof.
  destruct b2, b1, b4, b8, b16, b32, b64, b128; vm_compute; reflexivity.
Qed.

(** X2.  Decoding undoes encoding: for the word that is the sum of the
    bits of the held buttons, the poll reports exactly the held buttons,
    in the order of the fields of [GAMEPAD]. *)
Theorem gp_down_of_encode (held : Z -> bool) :
  gp_down_of (gp_encode held) = map PInt (filter held GAMEPAD_BITS).
Proof.
  unfold gp_encode, GAMEPAD_BITS. cbn [fold_right].
  rewrite gp_down_of_sum, !filter_cons_app. reflexivity.
Qed.

(** ** Leaving the loop *)

Lemma set_not_empty {V : Type} (d : Dict.t V) (k : handler) (v : V) :
  Dict.is_empty (Dict.set d k v) = false.
Proof.
  unfold Dict.is_empty, Dict.len.
  induction d as [|[[k' v']|] r IH]; cbn [Dict.set Dict.items]; try reflexivity.
  - destruct (handler_eqb k' k); reflexivity.
  - exact IH.
Qed.

Lemma next_target_has_tasks (s : state) (m : Z) :
  next_target_of s = Some m -> has_tasks s = true.
Proof.
  unfold next_target_of, wake_candidates, has_tasks, Dict.is_empty, Dict.len, Dict.values.
  destruct (Dict.items (TIMERS s)) as [|kv1 r1]; [|intros _; reflexivity].
  destruct (Dict.items (INTERVALS s)) as [|kv2 r2]; [discriminate|intros _; reflexivity].
Qed.

Lemma loop_with_tasks_does_not_return (E : env) (fuel : nat) :
  forall w : world, has_tasks (mem w) = true -> fst (loop E fuel w) <> Ok tt.
Proof.
  induction fuel as [|f IH]; intros w H; [discriminate|].
  rewrite loop_S, iteration_eq.
  unfold has_tasks in H. apply negb_true_iff in H. rewrite H.
  destruct (clock (mem w)) as [|now rest]; [discriminate|].
  destruct (fire_pass E f now _) as [[u|e|] w1]; try discriminate.
  destruct (next_target_of (mem w1)) as [next_target|] eqn:Hn; [|discriminate].
  destruct (wait_until next_target (clock (mem w1))) as [rest1|]; [|discriminate].
  apply IH. apply next_target_has_tasks in Hn. exact Hn.
Qed.

(** X3.  [start] never returns.  The loop leaves through its [return]
    only when both registries are empty at the top of an iteration; the
    first iteration finds the poll that [start] has just registered, and a
    later one is only reached after [min] has found a deadline among the
    tasks.  So every run ends in an exception or goes on. *)
Theorem start_never_returns (E : env) (fuel : nat) (fn : option handler) (w : world) :
  fst (start E fuel fn w) <> Ok tt.
Proof.
  rewrite start_eq. apply loop_with_tasks_does_not_return.
  unfold has_tasks. cbn [mem]. apply negb_true_iff, andb_false_iff. right.
  destruct fn as [f|]; cbn [at_ every INTERVALS with_TIMERS with_INTERVALS];
    apply set_not_empty.
Qed.

(** X4.  When the pass of an iteration ends with both registries empty,
    the iteration does not quit: [min] is called on an empty list and the
    loop ends in [ValueError]. *)
Theorem emptied_registries_raise_ValueError
        (E : env) (fuel : nat) (w w1 : world) (now : Z) (rest : list Z) :
  has_tasks (mem w) = true ->
  clock (mem w) = now :: rest ->
  fire_pass E fuel now (mkWorld (with_clock rest (mem w)) (calls w)) = (Ok tt, w1) ->
  has_tasks (mem w1) = false ->
  iteration E fuel w = (Raise ValueError, w1) /\
  loop E (S fuel) w = (Raise ValueError, w1).
Proof.
  intros H Hc Hp He.
  assert (Hi : iteration E fuel w = (Raise ValueError, w1)).
  { rewrite iteration_eq. unfold has_tasks in H. apply negb_true_iff in H.
    rewrite H, Hc, Hp.
    destruct (next_target_of (mem w1)) as [m|] eqn:Hn; [|reflexivity].
    apply next_target_has_tasks in Hn. congruence. }
  split; [exact Hi|]. rewrite loop_S, Hi. reflexivity.
Qed.

Lemma emptied_registries_raise_ValueError_witness :
  let E := sample_env false poll_cancelling in
  let w := mkWorld (at_ 0 (Fn 0) (every 20 Pad (initial [5; 6] []))) [] in
  let w1 := snd (fire_pass E 3 5 (mkWorld (with_clock [6] (mem w)) (calls w))) in
  (has_tasks (mem w) = true /\
   clock (mem w) = 5 :: [6] /\
   fire_pass E 3 5 (mkWorld (with_clock [6] (mem w)) (calls w)) = (Ok tt, w1) /\
   has_tasks (mem w1) = false) /\
  iteration E 3 w = (Raise ValueError, w1) /\
  loop E 4 w = (Raise ValueError, w1).
Proof.
  intros E w w1.
  assert (H1 : has_tasks (mem w) = true) by (vm_compute; reflexivity).
  assert (H2 : clock (mem w) = 5 :: [6]) by (vm_compute; reflexivity).
  assert (H3 : fire_pass E 3 5 (mkWorld (with_clock [6] (mem w)) (calls w)) = (Ok tt, w1))
    by (vm_compute; reflexivity).
  assert (H4 : has_tasks (mem w1) = false) by (vm_compute; reflexivity).
  split; [exact (conj H1 (conj H2 (conj H3 H4)))|].
  exact (@emptied_registries_raise_ValueError E 3%nat w w1 5 [6] H1 H2 H3 H4).
Defined.

(** ** [cancel] *)

Module RemoveFacts.
Section Values.
Variable V : Type.
Implicit Types (d : Dict.t V) (k : handler) (v : V).

Lemma keys_remove_gone d k :
  NoDup (Dict.keys d) -> ~ In k (Dict.keys (Dict.remove d k)).
Proof.
  induction d as [|[[k' v']|] r IH]; intros Hnd; cbn [Dict.remove].
  - intros [].
  - rewrite DictFacts.keys_cons_some in Hnd. inversion Hnd as [|? ? Hout Hnd']; subst.
    destruct (handler_eqb_spec k' k) as [->|Hne].
    + rewrite DictFacts.keys_cons_none. exact Hout.
    + rewrite DictFacts.keys_cons_some. intros [Heq|Hin]; [contradiction|].
      exact (IH Hnd' Hin).
  - rewrite DictFacts.keys_cons_none in *. auto.
Qed.

Lemma get_remove_other d k k' : k' <> k -> Dict.get (Dict.remove d k) k' = Dict.get d k'.
Proof.
  intros Hne. induction d as [|[[k0 v0]|] r IH]; cbn [Dict.remove Dict.get].
  - reflexivity.
  - destruct (handler_eqb_spec k0 k) as [->|Hne0]; cbn [Dict.get].
    + destruct (handler_eqb_spec k k') as [->|_]; [contradiction|reflexivity].
    + rewrite IH. reflexivity.
  - exact IH.
Qed.

Lemma remove_absent d k : ~ In k (Dict.keys d) -> Dict.remove d k = d.
Proof.
  induction d as [|[[k0 v0]|] r IH]; intros Hout; cbn [Dict.remove].
  - reflexivity.
  - rewrite DictFacts.keys_cons_some in Hout.
    destruct (handler_eqb_spec k0 k) as [->|Hne]; [exfalso; apply Hout; left; reflexivity|].
    f_equal. apply IH. intros H. apply Hout. right. exact H.
  - rewrite DictFacts.keys_cons_none in Hout. f_equal. apply IH. exact Hout.
Qed.
End Values.
End RemoveFacts.

Lemma cancel_cons (fn : handler) (fns : list handler) (s : state) :
  cancel (fn :: fns) s = cancel fns (cancel1 fn s).
Proof. reflexivity. Qed.

Lemma cancel_keeps_out (fns : list handler) :
  forall (s : state) (fn : handler),
    (~ In fn (Dict.keys (INTERVALS s)) -> ~ In fn (Dict.keys (INTERVALS (cancel fns s)))) /\
    (~ In fn (Dict.keys (TIMERS s)) -> ~ In fn (Dict.keys (TIMERS (cancel fns s)))).
Proof.
  induction fns as [|a r IH]; intros s fn; [split; auto|].
  rewrite cancel_cons. destruct (IH (cancel1 a s) fn) as [H1 H2].
  split; intros Hout.
  - apply H1. intros Hin. apply Hout. eapply DictFacts.keys_remove_incl. exact Hin.
  - apply H2. intros Hin. apply Hout. eapply DictFacts.keys_remove_incl. exact Hin.
Qed.

(** X5.  In a state where no registry holds a key twice, [cancel] takes
    each of its arguments out of both registries, and leaves the entry of
    every other callable as it was. *)
Theorem cancel_unregisters (fns : list handler) (s : state) :
  unique_keys s ->
  (forall fn, In fn fns ->
              ~ In fn (Dict.keys (INTERVALS (cancel fns s))) /\
              ~ In fn (Dict.keys (TIMERS (cancel fns s)))) /\
  (forall k, ~ In k fns ->
             Dict.get (INTERVALS (cancel fns s)) k = Dict.get (INTERVALS s) k /\
             Dict.get (TIMERS (cancel fns s)) k = Dict.get (TIMERS s) k).
Proof.
  revert s. induction fns as [|a r IH]; intros s Hu.
  - split; [intros fn []|]. intros k _. split; reflexivity.
  - rewrite cancel_cons.
    pose proof (unique_keys_cancel1 a Hu) as Hu1.
    destruct (IH (cancel1 a s) Hu1) as [Hgone Hkept]. split.
    + intros fn [<-|Hin]; [|apply Hgone; exact Hin].
      destruct Hu as [HI HT].
      destruct (cancel_keeps_out r (cancel1 a s) a) as [H1 H2]. split.
      * apply H1. cbn [cancel1 INTERVALS with_INTERVALS with_TIMERS with_PRESSES].
        apply RemoveFacts.keys_remove_gone. exact HI.
      * apply H2. cbn [cancel1 TIMERS with_INTERVALS with_TIMERS with_PRESSES].
        apply RemoveFacts.keys_remove_gone. exact HT.
    + intros k Hk. destruct (Hkept k) as [H1 H2]; [intros H; apply Hk; right; exact H|].
      rewrite H1, H2. cbn [cancel1 INTERVALS TIMERS with_INTERVALS with_TIMERS with_PRESSES].
      assert (Hne : k <> a) by (intros ->; apply Hk; left; reflexivity).
      split; apply RemoveFacts.get_remove_other; exact Hne.
Qed.

Lemma cancel_unregisters_witness :
  let s := at_ 70 (Fn 1) (every 50 (Fn 1) (every 20 (Fn 2) (initial [] []))) in
  unique_keys s /\
  (forall fn, In fn [Fn 1] ->
              ~ In fn (Dict.keys (INTERVALS (cancel [Fn 1] s))) /\
              ~ In fn (Dict.keys (TIMERS (cancel [Fn 1] s)))) /\
  (forall k, ~ In k [Fn 1] ->
             Dict.get (INTERVALS (cancel [Fn 1] s)) k = Dict.get (INTERVALS s) k /\
             Dict.get (TIMERS (cancel [Fn 1] s)) k = Dict.get (TIMERS s) k).
Proof.
  intros s.
  assert (Hu : unique_keys s).
  { split; cbn.
    - constructor; [intros [H|[]]; discriminate H|]. constructor; [intros []|constructor].
    - constructor; [intros []|constructor]. }
  split; [exact Hu|].
  exact (@cancel_unregisters [Fn 1] s Hu).
Defined.

Lemma pop_press_absent (fn : handler) (l : list press) :
  bindings_of fn l = [] -> pop_press fn l = l.
Proof.
  unfold bindings_of. induction l as [|p r IH]; intros H; cbn [pop_press filter] in *.
  - reflexivity.
  - unfold handler_of in H. destruct (handler_eqb (fst (fst p)) fn); [discriminate|].
    f_equal. apply IH. exact H.
Qed.

(** X6.  Cancelling a callable that is in neither registry and has no
    binding changes nothing at all. *)
Theorem cancel_of_unregistered_is_noop (fn : handler) (s : state) :
  ~ In fn (Dict.keys (INTERVALS s)) ->
  ~ In fn (Dict.keys (TIMERS s)) ->
  bindings_of fn (PRESSES s) = [] ->
  cancel [fn] s = s.
Proof.
  intros HI HT HP. unfold cancel. cbn [fold_left]. unfold cancel1.
  cbn [INTERVALS TIMERS PRESSES with_INTERVALS with_TIMERS].
  rewrite (@RemoveFacts.remove_absent _ _ _ HI), (@RemoveFacts.remove_absent _ _ _ HT),
    (@pop_press_absent _ _ HP).
  destruct s; reflexivity.
Qed.

Lemma cancel_of_unregistered_is_noop_witness :
  let s := every 20 (Fn 2) (initial [] []) in
  (~ In (Fn 1) (Dict.keys (INTERVALS s)) /\
   ~ In (Fn 1) (Dict.keys (TIMERS s)) /\
   bindings_of (Fn 1) (PRESSES s) = []) /\
  cancel [Fn 1] s = s.
Proof.
  intros s.
  assert (HI : ~ In (Fn 1) (Dict.keys (INTERVALS s))) by (intros [H|[]]; discriminate H).
  assert (HT : ~ In (Fn 1) (Dict.keys (TIMERS s))) by (intros []).
  assert (HP : bindings_of (Fn 1) (PRESSES s) = []) by reflexivity.
  split; [repeat split; assumption|].
  exact (@cancel_of_unregistered_is_noop (Fn 1) s HI HT HP).
Defined.

(** X7.  [cancel] drops one binding of the callable, the one registered
    first: the bindings before it and after it stay, so a callable bound
    twice is still bound after one [cancel]. *)
Theorem cancel_drops_first_binding_only
        (fn : handler) (s : state) (before after : list press) (p : press) :
  PRESSES s = before ++ p :: after ->
  handler_of p = fn ->
  bindings_of fn before = [] ->
  PRESSES (cancel [fn] s) = before ++ after /\
  bindings_of fn (PRESSES (cancel [fn] s)) = bindings_of fn after.
Proof.
  intros HP Hp Hb.
  assert (H : PRESSES (cancel [fn] s) = before ++ after).
  { unfold cancel. cbn [fold_left]. unfold cancel1.
    cbn [PRESSES with_INTERVALS with_TIMERS with_PRESSES]. rewrite HP. clear HP.
    unfold bindings_of in Hb.
    induction before as [|q r IH]; cbn [app pop_press filter] in *.
    - unfold handler_of in Hp. rewrite Hp, handler_eqb_refl. reflexivity.
    - unfold handler_of in Hb. destruct (handler_eqb (fst (fst q)) fn); [discriminate|].
      f_equal. apply IH. exact Hb. }
  split; [exact H|]. rewrite H. unfold bindings_of in *.
  rewrite filter_app, Hb. reflexivity.
Qed.

Lemma cancel_drops_first_binding_only_witness :
  let E := sample_env true quiet in
  let s := snd (on E [PPin 5] (Fn 0) UP (snd (on E [PPin 4] (Fn 0) DOWN (initial [] [])))) in
  (PRESSES s = [] ++ (Fn 0, [PPin 4], DOWN) :: [(Fn 0, [PPin 5], UP)] /\
   handler_of (Fn 0, [PPin 4], DOWN) = Fn 0 /\
   bindings_of (Fn 0) [] = []) /\
  PRESSES (cancel [Fn 0] s) = [] ++ [(Fn 0, [PPin 5], UP)] /\
  bindings_of (Fn 0) (PRESSES (cancel [Fn 0] s)) = bindings_of (Fn 0) [(Fn 0, [PPin 5], UP)].
Proof.
  intros E s.
  assert (H1 : PRESSES s = [] ++ (Fn 0, [PPin 4], DOWN) :: [(Fn 0, [PPin 5], UP)])
    by reflexivity.
  assert (H2 : handler_of (Fn 0, [PPin 4], DOWN) = Fn 0) by reflexivity.
  assert (H3 : bindings_of (Fn 0) [] = []) by reflexivity.
  split; [repeat split; assumption|].
  exact (@cancel_drops_first_binding_only (Fn 0) s [] [(Fn 0, [PPin 5], UP)]
           (Fn 0, [PPin 4], DOWN) H1 H2 H3).
Defined.


(** ** [on] over the buttons of the board *)

Lemma on_buttons_keeps_PRESSES (E : env) (buttons : list pyval) :
  forall (dio : option driver) (s : state),
    PRESSES (snd (on_buttons E buttons dio s)) = PRESSES s.
Proof.
  induction buttons as [|button rest IH]; intros dio s; cbn [on_buttons]; [reflexivity|].
  destruct (py_in button (BUTTONS s)); cbn [negb]; [apply IH|].
  destruct (py_in button GAMEPAD).
  - rewrite IH. destruct (GAMEPADSHIFT s); reflexivity.
  - destruct (py_in button (DIGITALIO E)); [|destruct (py_in button (TOUCHIO E))];
      try (rewrite IH; reflexivity).
    destruct dio as [d|]; [rewrite IH|]; reflexivity.
Qed.

Lemma py_in_false (x : pyval) (l : list pyval) : py_in x l = false <-> ~ In x l.
Proof.
  rewrite <- py_in_In. destruct (py_in x l); split; intros H; congruence.
Qed.

Lemma on_buttons_known (E : env) (buttons : list pyval) :
  forall (dio : option driver) (s : state),
    forallb (known E) buttons = true ->
    wired E s ->
    fst (on_buttons E buttons dio s) = Ok tt /\
    wired E (snd (on_buttons E buttons dio s)) /\
    BUTTONS (snd (on_buttons E buttons dio s)) = BUTTONS s ++ new_pins (BUTTONS s) buttons /\
    GAMEPADSHIFT (snd (on_buttons E buttons dio s))
    = if references_gamepad buttons then Some GamePadShift else GAMEPADSHIFT s.
Proof.
  induction buttons as [|button rest IH]; intros dio s Hk Hw; cbn [on_buttons].
  - cbn [fst snd new_pins]. rewrite app_nil_r.
    split; [reflexivity|]. split; [exact Hw|]. split; reflexivity.
  - cbn [forallb] in Hk. apply andb_true_iff in Hk. destruct Hk as [Hb Hrest].
    unfold references_gamepad. cbn [existsb new_pins].
    destruct (py_in button (BUTTONS s)) eqn:Hin; cbn [negb orb].
    + assert (Hg : py_in button GAMEPAD = false)
        by (apply (wired_no_gamepad Hw), py_in_In; exact Hin).
      rewrite Hg. cbn [orb]. apply IH; assumption.
    + destruct (py_in button GAMEPAD) eqn:Hg; cbn [orb].
      * set (s1 := match GAMEPADSHIFT s with
                   | Some _ => s
                   | None => with_GAMEPADSHIFT (Some GamePadShift) s
                   end).
        assert (Hw1 : wired E s1).
        { unfold s1. destruct (GAMEPADSHIFT s); [exact Hw|].
          destruct Hw as [H1 H2 H3]. constructor; assumption. }
        assert (Hb1 : BUTTONS s1 = BUTTONS s)
          by (unfold s1; destruct (GAMEPADSHIFT s); reflexivity).
        assert (Hs1 : GAMEPADSHIFT s1 = Some GamePadShift).
        { unfold s1. destruct (GAMEPADSHIFT s) as [[]|] eqn:Hgs; [exact Hgs|reflexivity]. }
        destruct (IH dio s1 Hrest Hw1) as (H1 & H2 & H3 & H4).
        rewrite Hb1 in H3. rewrite Hs1 in H4.
        split; [exact H1|]. split; [exact H2|]. split; [exact H3|].
        rewrite H4. destruct (references_gamepad rest); reflexivity.
      * unfold known in Hb. rewrite Hg in Hb. cbn [orb] in Hb.
        set (d := driver_of E button).
        assert (Hbranch :
                  (if py_in button (DIGITALIO E) then (Some (DigitalInOut button), s)
                   else if py_in button (TOUCHIO E) then (Some (TouchIn button), s)
                        else (dio, print "unknown button" s))
                  = (Some d, s)).
        { unfold d, driver_of. destruct (py_in button (DIGITALIO E)); [reflexivity|].
          cbn [orb] in Hb. rewrite Hb. reflexivity. }
        rewrite Hbranch.
        set (s2 := with_DIOS (DIOS (with_BUTTONS (BUTTONS s ++ [button]) s) ++ [d])
                             (with_BUTTONS (BUTTONS s ++ [button]) s)).
        assert (Hw2 : wired E s2).
        { destruct Hw as [H1 H2 H3]. constructor; unfold s2;
            cbn [BUTTONS DIOS with_DIOS with_BUTTONS].
          - rewrite H1, map_app. reflexivity.
          - apply NoDup_app; [exact H2 | constructor; [intros []|constructor] |].
            intros x Hx [<-|[]]. apply py_in_false in Hin. contradiction.
          - intros b Hb'. apply in_app_or in Hb'. destruct Hb' as [Hb'|[<-|[]]]; auto. }
        destruct (IH (Some d) s2 Hrest Hw2) as (H1 & H2 & H3 & H4).
        split; [exact H1|]. split; [exact H2|]. split; [|exact H4].
        rewrite H3. unfold s2. cbn [BUTTONS with_DIOS with_BUTTONS].
        rewrite <- app_assoc. reflexivity.
Qed.

Lemma do_bindings_cons (E : env) (b : list pyval * handler * Z)
      (bs : list (list pyval * handler * Z)) (s : state) :
  do_bindings E (b :: bs) s
  = do_bindings E bs (snd (on E (fst (fst b)) (snd (fst b)) (snd b) s)).
Proof. destruct b as [[buttons fn] action]. reflexivity. Qed.

Lemma do_bindings_known (E : env) (bs : list (list pyval * handler * Z)) :
  Forall (fun b => forallb (known E) (fst (fst b)) = true) bs ->
  forall s0,
    wired E s0 ->
    PRESSES (do_bindings E bs s0) = PRESSES s0 ++ map press_of bs /\
    wired E (do_bindings E bs s0) /\
    GAMEPADSHIFT (do_bindings E bs s0)
    = if existsb (fun b => references_gamepad (fst (fst b))) bs
      then Some GamePadShift else GAMEPADSHIFT s0.
Proof.
  intros Hk. induction Hk as [|[[buttons fn] action] r Hb Hr IH]; intros s0 Hw.
  - cbn. rewrite app_nil_r. split; [reflexivity|]. split; [exact Hw|reflexivity].
  - rewrite do_bindings_cons. cbn [fst snd] in *. unfold on.
    pose proof (@on_buttons_known E buttons None s0 Hb Hw) as (H1 & H2 & H3 & H4).
    pose proof (on_buttons_keeps_PRESSES E buttons None s0) as HP.
    destruct (on_buttons E buttons None s0) as [[[]|e|] s1]; cbn [fst snd] in *;
      try discriminate.
    assert (Hw1 : wired E (with_PRESSES (PRESSES s1 ++ [(fn, buttons, action)]) s1)).
    { destruct H2 as [A B C]. constructor; assumption. }
    destruct (IH _ Hw1) as (I1 & I2 & I3).
    cbn [PRESSES GAMEPADSHIFT with_PRESSES] in I1, I3.
    split; [|split; [exact I2|]].
    + rewrite I1, HP, <- app_assoc. reflexivity.
    + rewrite I3, H4. cbn [existsb fst].
      destruct (references_gamepad buttons); cbn [orb]; [|reflexivity].
      destruct (existsb _ r); reflexivity.
Qed.

Lemma new_pins_app (l1 l2 : list pyval) :
  forall seen,
    new_pins seen (l1 ++ l2)
    = new_pins seen l1 ++ new_pins (seen ++ new_pins seen l1) l2.
Proof.
  induction l1 as [|b r IH]; intros seen; cbn [app new_pins].
  - rewrite app_nil_r. reflexivity.
  - destruct (py_in b seen || py_in b GAMEPAD); [apply IH|].
    rewrite IH. cbn [app]. rewrite <- app_assoc. reflexivity.
Qed.

Lemma new_pins_In (l : list pyval) (b : pyval) :
  forall seen,
    In b (new_pins seen l) <-> In b l /\ ~ In b seen /\ py_in b GAMEPAD = false.
Proof.
  induction l as [|a r IH]; intros seen; cbn [new_pins].
  - split; [intros [] | intros [[] _]].
  - destruct (py_in a seen || py_in a GAMEPAD) eqn:Ha.
    + rewrite IH. split.
      * intros (H1 & H2 & H3). split; [right; exact H1|]. split; assumption.
      * intros ([<-|H1] & H2 & H3); [|split; [exact H1|split; assumption]].
        exfalso. apply py_in_false in H2. rewrite H2, H3 in Ha. discriminate Ha.
    + apply orb_false_iff in Ha. destruct Ha as [Hs Hg]. cbn [In]. rewrite IH. split.
      * intros [<-|(H1 & H2 & H3)].
        -- split; [left; reflexivity|]. split; [apply py_in_false; exact Hs|exact Hg].
        -- split; [right; exact H1|]. split; [|exact H3].
           intros H. apply H2. apply in_or_app. left. exact H.
      * intros ([<-|H1] & H2 & H3); [left; reflexivity|].
        destruct (pyval_eqb_spec a b) as [->|Hne]; [left; reflexivity|].
        right. split; [exact H1|]. split; [|exact H3].
        intros H. apply in_app_or in H. destruct H as [H|[H|[]]]; [exact (H2 H)|].
        exact (Hne H).
Qed.

Lemma do_bindings_buttons (E : env) (bs : list (list pyval * handler * Z)) :
  Forall (fun b => forallb (known E) (fst (fst b)) = true) bs ->
  forall s0,
    wired E s0 ->
    BUTTONS (do_bindings E bs s0) = BUTTONS s0 ++ new_pins (BUTTONS s0) (named_buttons bs).
Proof.
  intros Hk. induction Hk as [|[[buttons fn] action] r Hb Hr IH]; intros s0 Hw.
  - cbn. rewrite app_nil_r. reflexivity.
  - rewrite do_bindings_cons. cbn [fst snd] in *. unfold on.
    pose proof (@on_buttons_known E buttons None s0 Hb Hw) as (H1 & H2 & H3 & _).
    destruct (on_buttons E buttons None s0) as [[[]|e|] s1]; cbn [fst snd] in *;
      try discriminate.
    assert (Hw1 : wired E (with_PRESSES (PRESSES s1 ++ [(fn, buttons, action)]) s1)).
    { destruct H2 as [A B C]. constructor; assumption. }
    rewrite (IH _ Hw1). cbn [BUTTONS with_PRESSES]. rewrite H3.
    unfold named_buttons. cbn [flat_map fst]. rewrite new_pins_app, <- app_assoc.
    reflexivity.
Qed.

Lemma wired_initial (E : env) (clk : list Z) (ins : list reading) : wired E (initial clk ins).
Proof. constructor; [reflexivity | constructor | intros b []]. Qed.

Lemma named_buttons_In (bs : list (list pyval * handler * Z)) (b : pyval) :
  In b (named_buttons bs) <-> exists binding, In binding bs /\ In b (fst (fst binding)).
Proof. unfold named_buttons. apply in_flat_map. Qed.

(** X8.  A series of [on] calls, on a freshly imported module, whose
    buttons are all members of [GAMEPAD], [DIGITALIO] or [TOUCHIO]: every
    binding is appended to [PRESSES], in the order of the calls; [BUTTONS]
    holds the buttons named that are no members of [GAMEPAD], each of them
    once, in the order in which they were first named, and nothing else;
    [DIOS] holds at the same positions the driver of each of them;
    and the shift register is built exactly when a combo names a member
    of [GAMEPAD]. *)
Theorem bindings_on_known_buttons
        (E : env) (bs : list (list pyval * handler * Z)) (clk : list Z) (ins : list reading) :
  Forall (fun b => forallb (known E) (fst (fst b)) = true) bs ->
  PRESSES (do_bindings E bs (initial clk ins)) = map press_of bs /\
  BUTTONS (do_bindings E bs (initial clk ins)) = new_pins [] (named_buttons bs) /\
  (forall b,
      In b (BUTTONS (do_bindings E bs (initial clk ins))) <->
      (exists binding, In binding bs /\ In b (fst (fst binding))) /\
      py_in b GAMEPAD = false) /\
  wired E (do_bindings E bs (initial clk ins)) /\
  GAMEPADSHIFT (do_bindings E bs (initial clk ins))
  = if existsb (fun b => references_gamepad (fst (fst b))) bs
    then Some GamePadShift else None.
Proof.
  intros Hk.
  destruct (@do_bindings_known E bs Hk (initial clk ins) (wired_initial E clk ins))
    as (HP & Hw & HG).
  pose proof (@do_bindings_buttons E bs Hk (initial clk ins) (wired_initial E clk ins)) as HB.
  cbn [initial BUTTONS app] in HB.
  split; [exact HP|]. split; [exact HB|]. split; [|split; [exact Hw|exact HG]].
  intros b. rewrite HB, new_pins_In, named_buttons_In. split.
  - intros (H1 & _ & H3). split; assumption.
  - intros (H1 & H3). split; [exact H1|]. split; [intros []|exact H3].
Qed.

Lemma bindings_on_known_buttons_witness :
  let E := sample_env true quiet in
  let bs := [([PPin 4; PInt 2], Fn 0, DOWN); ([PPin 1; PPin 4], Fn 1, UP)] in
  Forall (fun b => forallb (known E) (fst (fst b)) = true) bs /\
  PRESSES (do_bindings E bs (initial [] [])) = map press_of bs /\
  BUTTONS (do_bindings E bs (initial [] [])) = new_pins [] (named_buttons bs) /\
  (forall b,
      In b (BUTTONS (do_bindings E bs (initial [] []))) <->
      (exists binding, In binding bs /\ In b (fst (fst binding))) /\
      py_in b GAMEPAD = false) /\
  wired E (do_bindings E bs (initial [] [])) /\
  GAMEPADSHIFT (do_bindings E bs (initial [] []))
  = if existsb (fun b => references_gamepad (fst (fst b))) bs
    then Some GamePadShift else None.
Proof.
  intros E bs.
  assert (Hk : Forall (fun b => forallb (known E) (fst (fst b)) = true) bs)
    by (repeat constructor).
  split; [exact Hk|].
  exact (@bindings_on_known_buttons E bs [] [] Hk).
Defined.

(** The globals after the two calls of the witness. *)
Lemma two_bindings_registered :
  let E := sample_env true quiet in
  let bs := [([PPin 4; PInt 2], Fn 0, DOWN); ([PPin 1; PPin 4], Fn 1, UP)] in
  let s := do_bindings E bs (initial [] []) in
  BUTTONS s = [PPin 4; PPin 1] /\
  DIOS s = [DigitalInOut (PPin 4); TouchIn (PPin 1)] /\
  PRESSES s = [(Fn 0, [PPin 4; PInt 2], DOWN); (Fn 1, [PPin 1; PPin 4], UP)] /\
  GAMEPADSHIFT s = Some GamePadShift.
Proof. repeat split; vm_compute; reflexivity. Qed.


(** ** Edges *)

Lemma list_remove_app (a : pyval) (kept rest : list pyval) :
  ~ In a kept -> list_remove a (kept ++ a :: rest) = Some (kept ++ rest).
Proof.
  induction kept as [|k r IH]; intros Hout; cbn [app list_remove].
  - rewrite pyval_eqb_refl. reflexivity.
  - destruct (pyval_eqb_spec k a) as [->|Hne].
    + exfalso. apply Hout. left. reflexivity.
    + rewrite IH; [reflexivity|]. intros H. apply Hout. right. exact H.
Qed.

Lemma remove_each_released (down extra : list pyval) (pressed : list pyval) :
  forall kept,
    (forall x, In x kept -> In x down) ->
    remove_each (filter (fun b => negb (py_in b down)) pressed) (kept ++ pressed ++ extra)
    = Some (kept ++ filter (fun b => py_in b down) pressed ++ extra).
Proof.
  induction pressed as [|a r IH]; intros kept Hkept; cbn [filter app remove_each].
  - reflexivity.
  - destruct (py_in a down) eqn:Ha; cbn [negb].
    + specialize (IH (kept ++ [a])). rewrite <- !app_assoc in IH. cbn [app] in IH.
      apply IH. intros x Hx. apply in_app_or in Hx.
      destruct Hx as [Hx|[<-|[]]]; [auto | apply py_in_In; exact Ha].
    + cbn [remove_each]. rewrite list_remove_app.
      * apply IH. exact Hkept.
      * intros Hin. apply Hkept, py_in_In in Hin. congruence.
Qed.

Lemma filter_all {A : Type} (f : A -> bool) (l : list A) :
  filter (fun x => negb (f x)) l = [] -> filter f l = l.
Proof.
  induction l as [|a r IH]; cbn [filter]; [reflexivity|].
  destruct (f a); cbn [negb]; [|discriminate]. intros H. f_equal. auto.
Qed.

Lemma settle_in_step (pressed down : list pyval) : in_step down (settle pressed down).
Proof.
  intros b. unfold settle. rewrite in_app_iff, !filter_In, negb_true_iff.
  rewrite py_in_In. split.
  - intros Hb. destruct (py_in b pressed) eqn:Hp.
    + left. split; [apply py_in_In; exact Hp | exact Hb].
    + right. split; [exact Hb | reflexivity].
  - intros [[_ Hb]|[Hb _]]; exact Hb.
Qed.

Lemma with_pad_pressed_same (s : state) : with_pad_pressed (pad_pressed s) s = s.
Proof. destruct s; reflexivity. Qed.

(** A poll whose [down] is the recorded one, with [settle] for what it
    leaves in [pressed]. *)
Lemma poll_confirms (call : handler -> Z -> run retval) (fuel : nat) (now : Z) (w : world)
      (g : shiftreg) (rd : reading) (rest : list reading) :
  GAMEPADSHIFT (mem w) = Some g ->
  inputs (mem w) = rd :: rest ->
  down_of rd (mem w) = pad_down (mem w) ->
  Gamepad_call call fuel now w
  = let w1 := mkWorld (with_pad_pressed (settle (pad_pressed (mem w)) (pad_down (mem w)))
                                        (with_inputs rest (mem w)))
                      (calls w) in
    if nonempty (fresh_down_of (pad_pressed (mem w)) (pad_down (mem w)))
       || nonempty (fresh_up_of (pad_pressed (mem w)) (pad_down (mem w)))
    then dispatch call fuel 0 (fresh_down_of (pad_pressed (mem w)) (pad_down (mem w)))
                  (fresh_up_of (pad_pressed (mem w)) (pad_down (mem w))) now w1
    else (Ok tt, w1).
Proof.
  intros HG HI Heq. unfold Gamepad_call. run_unfold. rewrite HG.
  unfold next_reading. rewrite HI.
  cbn [mem calls BUTTONS DIOS pad_down pad_pressed with_inputs].
  fold (down_of rd (mem w)). rewrite Heq.
  destruct (py_list_eqb_spec (pad_down (mem w)) (pad_down (mem w))) as [_|Hne];
    [|contradiction].
  cbn [negb mem calls pad_pressed with_inputs].
  set (pressed := pad_pressed (mem w)). set (down := pad_down (mem w)).
  fold (fresh_down_of pressed down). fold (fresh_up_of pressed down).
  assert (Hrem : remove_each (fresh_up_of pressed down)
                             (pressed ++ fresh_down_of pressed down)
                 = Some (settle pressed down)).
  { exact (@remove_each_released down (fresh_down_of pressed down) pressed []
             (fun x (H : In x []) => match H with end)). }
  assert (Hs : fresh_up_of pressed down = [] ->
               settle pressed down = pressed ++ fresh_down_of pressed down).
  { intros Hfu. unfold settle. fold (fresh_down_of pressed down). f_equal.
    apply filter_all. exact Hfu. }
  destruct (fresh_down_of pressed down) as [|d0 fd]; cbn [nonempty];
    cbn [mem calls pad_pressed with_pad_pressed orb].
  - rewrite app_nil_r in Hrem, Hs.
    destruct (fresh_up_of pressed down) as [|u0 fu]; cbn [nonempty negb].
    + rewrite (Hs eq_refl). unfold pressed.
      change (pad_pressed (mem w)) with (pad_pressed (with_inputs rest (mem w))).
      rewrite with_pad_pressed_same. reflexivity.
    + cbn [mem calls pad_pressed with_inputs]. fold pressed.
      rewrite Hrem. reflexivity.
  - cbn [negb]. destruct (fresh_up_of pressed down) as [|u0 fu]; cbn [nonempty].
    + rewrite (Hs eq_refl). reflexivity.
    + cbn [mem calls pad_pressed with_pad_pressed]. rewrite Hrem. reflexivity.
Qed.

(** X9.  The poll that confirms a reading never fails on its own list
    operations: every button it removes from [pressed] is there to be
    removed.  It leaves in [pressed] the buttons that stay down, in their
    old order, followed by the ones that have just gone down, so that
    [pressed] holds the same buttons as [down]; then it dispatches when
    something is fresh, and returns otherwise. *)
Theorem confirming_poll_settles_pressed
        (call : handler -> Z -> run retval) (fuel : nat) (now : Z) (w : world)
        (g : shiftreg) (rd : reading) (rest : list reading) :
  GAMEPADSHIFT (mem w) = Some g ->
  inputs (mem w) = rd :: rest ->
  down_of rd (mem w) = pad_down (mem w) ->
  let pressed := pad_pressed (mem w) in
  let down := pad_down (mem w) in
  let w1 := mkWorld (with_pad_pressed (settle pressed down) (with_inputs rest (mem w)))
                    (calls w) in
  remove_each (fresh_up_of pressed down) (pressed ++ fresh_down_of pressed down)
  = Some (settle pressed down) /\
  in_step down (settle pressed down) /\
  Gamepad_call call fuel now w
  = if nonempty (fresh_down_of pressed down) || nonempty (fresh_up_of pressed down)
    then dispatch call fuel 0 (fresh_down_of pressed down) (fresh_up_of pressed down) now w1
    else (Ok tt, w1).
Proof.
  intros HG HI Heq pressed down w1. split; [|split].
  - exact (@remove_each_released down (fresh_down_of pressed down) pressed []
             (fun x (H : In x []) => match H with end)).
  - apply settle_in_step.
  - exact (@poll_confirms call fuel now w g rd rest HG HI Heq).
Qed.

Lemma confirming_poll_settles_pressed_witness :
  let E := sample_env true quiet in
  let rd := reading_of [PPin 4] 0 in
  let s := with_pad_down [PPin 4] (two_button_app E [] [rd]) in
  let w := mkWorld s [] in
  (GAMEPADSHIFT (mem w) = Some GamePadShift /\
   inputs (mem w) = rd :: [] /\
   down_of rd (mem w) = pad_down (mem w)) /\
  let pressed := pad_pressed (mem w) in
  let down := pad_down (mem w) in
  let w1 := mkWorld (with_pad_pressed (settle pressed down) (with_inputs [] (mem w)))
                    (calls w) in
  remove_each (fresh_up_of pressed down) (pressed ++ fresh_down_of pressed down)
  = Some (settle pressed down) /\
  in_step down (settle pressed down) /\
  Gamepad_call (invoke E 1) 3 40 w
  = if nonempty (fresh_down_of pressed down) || nonempty (fresh_up_of pressed down)
    then dispatch (invoke E 1) 3 0 (fresh_down_of pressed down) (fresh_up_of pressed down)
                  40 w1
    else (Ok tt, w1).
Proof.
  intros E rd s w.
  assert (H1 : GAMEPADSHIFT (mem w) = Some GamePadShift) by (vm_compute; reflexivity).
  assert (H2 : inputs (mem w) = rd :: []) by (vm_compute; reflexivity).
  assert (H3 : down_of rd (mem w) = pad_down (mem w)) by (vm_compute; reflexivity).
  split; [exact (conj H1 (conj H2 H3))|].
  exact (@confirming_poll_settles_pressed (invoke E 1) 3%nat 40 w GamePadShift rd [] H1 H2 H3).
Defined.

(** ** Combos *)

Lemma py_in_filter (f : pyval -> bool) (b : pyval) (l : list pyval) :
  py_in b (filter f l) = py_in b l && f b.
Proof.
  induction l as [|a r IH]; cbn [filter]; [reflexivity|].
  unfold py_in in *. destruct (f a) eqn:Ha; cbn [existsb].
  - rewrite IH. destruct (pyval_eqb_spec b a) as [->|Hne]; cbn [orb]; [|reflexivity].
    rewrite Ha. reflexivity.
  - rewrite IH. destruct (pyval_eqb_spec b a) as [->|Hne]; cbn [orb]; [|reflexivity].
    rewrite Ha. rewrite !andb_false_r. reflexivity.
Qed.

Lemma forallb_same {A : Type} (f g : A -> bool) (l : list A) :
  (forall x, f x = g x) -> forallb f l = forallb g l.
Proof.
  intros H. induction l as [|a r IH]; cbn [forallb]; [reflexivity|].
  rewrite H, IH. reflexivity.
Qed.

(** X10.  What makes a binding fire.  With the fresh sets of a poll, a
    [DOWN] binding matches exactly when every button of its combo is down
    now and was not pressed before, an [UP] binding exactly when every
    button was pressed and is not down now, and a binding with any other
    action never.  So a combo whose buttons go down in different polls
    does not fire. *)
Theorem combo_fires_on_simultaneous_edge (buttons pressed down : list pyval) (action : Z) :
  matches buttons action (fresh_down_of pressed down) (fresh_up_of pressed down)
  = if action =? DOWN
    then forallb (fun b => py_in b down && negb (py_in b pressed)) buttons
    else if action =? UP
         then forallb (fun b => py_in b pressed && negb (py_in b down)) buttons
         else false.
Proof.
  unfold matches, fresh_down_of, fresh_up_of.
  assert (Hd : forallb (fun b => py_in b (filter (fun b0 => negb (py_in b0 pressed)) down))
                       buttons
               = forallb (fun b => py_in b down && negb (py_in b pressed)) buttons).
  { apply forallb_same. intros b. apply py_in_filter. }
  assert (Hu : forallb (fun b => py_in b (filter (fun b0 => negb (py_in b0 down)) pressed))
                       buttons
               = forallb (fun b => py_in b pressed && negb (py_in b down)) buttons).
  { apply forallb_same. intros b. apply py_in_filter. }
  rewrite Hd, Hu.
  destruct (Z.eqb_spec action DOWN) as [->|Hn]; cbn [andb].
  - change (DOWN =? UP) with false. cbn [andb].
    destruct (forallb (fun b => py_in b down && negb (py_in b pressed)) buttons);
      reflexivity.
  - destruct (action =? UP); cbn [andb]; [|reflexivity].
    destruct (forallb (fun b => py_in b pressed && negb (py_in b down)) buttons);
      reflexivity.
Qed.

Lemma combo_not_fired_when_one_is_held (buttons pressed down : list pyval) (b : pyval) :
  In b buttons -> In b pressed ->
  matches buttons DOWN (fresh_down_of pressed down) (fresh_up_of pressed down) = false.
Proof.
  intros Hb Hp. unfold matches. change (DOWN =? UP) with false. cbn [andb].
  destruct (forallb (fun b0 => py_in b0 (fresh_down_of pressed down)) buttons) eqn:H;
    [|reflexivity].
  rewrite forallb_forall in H. specialize (H b Hb).
  unfold fresh_down_of in H. rewrite py_in_filter in H.
  apply andb_true_iff in H. destruct H as [_ H].
  apply negb_true_iff in H. apply py_in_In in Hp. congruence.
Qed.

(** ** Looking up a key *)

Module GetFacts.
Section Values.
Variable V : Type.
Implicit Types (d : Dict.t V) (k : handler) (v : V).

Lemma get_set_other d k k' v : k' <> k -> Dict.get (Dict.set d k v) k' = Dict.get d k'.
Proof.
  intros Hne. induction d as [|[[k0 v0]|] r IH]; cbn [Dict.set Dict.get].
  - destruct (handler_eqb_spec k k') as [->|_]; [contradiction|reflexivity].
  - destruct (handler_eqb_spec k0 k) as [->|Hne0]; cbn [Dict.get].
    + destruct (handler_eqb_spec k k') as [->|_]; [contradiction|reflexivity].
    + rewrite IH. reflexivity.
  - exact IH.
Qed.

Lemma get_in_items d k v : Dict.get d k = Some v -> In (k, v) (Dict.items d).
Proof.
  induction d as [|[[k0 v0]|] r IH]; cbn [Dict.get Dict.items]; intros H.
  - discriminate H.
  - destruct (handler_eqb_spec k0 k) as [->|Hne].
    + injection H as <-. left. reflexivity.
    + right. apply IH. exact H.
  - apply IH. exact H.
Qed.

Lemma get_none_keys d k : Dict.get d k = None -> ~ In k (Dict.keys d).
Proof.
  induction d as [|[[k0 v0]|] r IH]; cbn [Dict.get]; intros H.
  - intros [].
  - rewrite DictFacts.keys_cons_some.
    destruct (handler_eqb_spec k0 k) as [->|Hne]; [discriminate H|].
    intros [Heq|Hin]; [contradiction | exact (IH H Hin)].
  - rewrite DictFacts.keys_cons_none. apply IH. exact H.
Qed.

Lemma keys_none_get d k : ~ In k (Dict.keys d) -> Dict.get d k = None.
Proof.
  induction d as [|[[k0 v0]|] r IH]; cbn [Dict.get]; intros H.
  - reflexivity.
  - rewrite DictFacts.keys_cons_some in H.
    destruct (handler_eqb_spec k0 k) as [->|Hne].
    + exfalso. apply H. left. reflexivity.
    + apply IH. intros Hin. apply H. right. exact Hin.
  - rewrite DictFacts.keys_cons_none in H. apply IH. exact H.
Qed.
End Values.
End GetFacts.

(** ** A press that is held *)

Lemma router_state_eq (s s' : state) :
  router_state s' = router_state s ->
  GAMEPADSHIFT s' = GAMEPADSHIFT s /\ BUTTONS s' = BUTTONS s /\ DIOS s' = DIOS s /\
  PRESSES s' = PRESSES s /\
  pad_down s' = pad_down s /\ pad_pressed s' = pad_pressed s /\ inputs s' = inputs s.
Proof. unfold router_state. intros H. injection H as -> -> -> -> -> -> ->. repeat split. Qed.

Lemma dispatch_keeps_router (call : handler -> Z -> run retval)
      (fresh_down fresh_up : list pyval) (now : Z) :
  (forall fn t w0, is_function fn = true ->
                   router_state (mem (snd (call fn t w0))) = router_state (mem w0)) ->
  forall (fuel idx : nat) (w : world),
    forallb (fun p => is_function (handler_of p)) (PRESSES (mem w)) = true ->
    router_state (mem (snd (dispatch call fuel idx fresh_down fresh_up now w)))
    = router_state (mem w).
Proof.
  intros Hcall. induction fuel as [|f IH]; intros idx w Hfn; [reflexivity|].
  rewrite dispatch_S.
  destruct (nth_error (PRESSES (mem w)) idx) as [p|] eqn:Hp; [|reflexivity].
  destruct (fires fresh_down fresh_up p); [|apply IH; exact Hfn].
  assert (Hf : is_function (handler_of p) = true).
  { rewrite forallb_forall in Hfn. apply Hfn. eapply nth_error_In. exact Hp. }
  pose proof (Hcall (handler_of p) now w Hf) as Hk.
  destruct (call (handler_of p) now w) as [[[|]|e|] w1]; cbn [snd] in *; try exact Hk.
  rewrite IH; [exact Hk|].
  apply router_state_eq in Hk. destruct Hk as (_ & _ & _ & -> & _). exact Hfn.
Qed.

(** X11.  A reading that departs from a settled state and is then held:
    the first poll only records it, the second confirms it and runs the
    dispatch loop on the fresh lists, and the third finds nothing fresh
    and calls nothing.  So a press that is held is handed to the bindings
    once, at the second poll of the new reading. *)
Theorem held_press_is_dispatched_once
        (call : handler -> Z -> run retval) (fuel : nat) (t1 t2 t3 : Z) (w : world)
        (g : shiftreg) (rd : reading) (rest : list reading) :
  GAMEPADSHIFT (mem w) = Some g ->
  inputs (mem w) = rd :: rd :: rd :: rest ->
  forallb (fun p => is_function (handler_of p)) (PRESSES (mem w)) = true ->
  (forall fn t w0, is_function fn = true ->
                   router_state (mem (snd (call fn t w0))) = router_state (mem w0)) ->
  down_of rd (mem w) <> pad_down (mem w) ->
  let down := down_of rd (mem w) in
  let pressed := pad_pressed (mem w) in
  let confirmed :=
    mkWorld (with_pad_pressed (settle pressed down)
               (with_inputs (rd :: rest) (with_pad_down down (mem w))))
            (calls w) in
  three_polls call fuel t1 t2 t3 w
  = bind (if nonempty (fresh_down_of pressed down) || nonempty (fresh_up_of pressed down)
          then dispatch call fuel 0 (fresh_down_of pressed down) (fresh_up_of pressed down) t2
          else ret tt)
         (fun _ => modify (with_inputs rest)) confirmed.
Proof.
  intros HG HI Hfn Hcall Hne down pressed confirmed.
  unfold three_polls. unfold bind at 1.
  rewrite (@poll_defers call fuel t1 w g rd (rd :: rd :: rest) HG HI Hne).
  set (w1 := mkWorld (with_pad_down (down_of rd (mem w))
                                    (with_inputs (rd :: rd :: rest) (mem w))) (calls w)).
  assert (Hd1 : down_of rd (mem w1) = pad_down (mem w1)) by reflexivity.
  unfold bind at 1.
  rewrite (@poll_confirms call fuel t2 w1 g rd (rd :: rest) HG eq_refl Hd1).
  change (pad_pressed (mem w1)) with pressed.
  change (pad_down (mem w1)) with down.
  change (mkWorld (with_pad_pressed (settle pressed down) (with_inputs (rd :: rest) (mem w1)))
                  (calls w1)) with confirmed.
  cbv zeta.
  assert (Hthird : forall w2 : world,
             router_state (mem w2) = router_state (mem confirmed) ->
             Gamepad_call call fuel t3 w2
             = (Ok tt, mkWorld (with_inputs rest (mem w2)) (calls w2))).
  { intros w2 Hr. apply router_state_eq in Hr.
    destruct Hr as (H1 & H2 & H3 & _ & H4 & H5 & H6).
    apply (@poll_steady call fuel t3 w2 g rd rest).
    - rewrite H1. exact HG.
    - rewrite H6. reflexivity.
    - unfold down_of. rewrite H2, H3, H4. reflexivity.
    - rewrite H4, H5. apply settle_in_step. }
  unfold bind.
  destruct (nonempty (fresh_down_of pressed down) || nonempty (fresh_up_of pressed down)).
  - pose proof (@dispatch_keeps_router call (fresh_down_of pressed down)
                  (fresh_up_of pressed down) t2 Hcall fuel 0%nat confirmed Hfn) as Hk.
    destruct (dispatch call fuel 0 (fresh_down_of pressed down) (fresh_up_of pressed down)
                       t2 confirmed) as [[u|e|] w2]; cbn [snd] in Hk; try reflexivity.
    apply Hthird. exact Hk.
  - unfold ret. apply Hthird. reflexivity.
Qed.

Lemma held_press_is_dispatched_once_witness :
  let E := sample_env true quiet in
  let rd := reading_of [PPin 4] 0 in
  let w := mkWorld (two_button_app E [] [rd; rd; rd]) [] in
  (GAMEPADSHIFT (mem w) = Some GamePadShift /\
   inputs (mem w) = rd :: rd :: rd :: [] /\
   forallb (fun p => is_function (handler_of p)) (PRESSES (mem w)) = true /\
   (forall fn t w0, is_function fn = true ->
                    router_state (mem (snd (invoke E 1 fn t w0))) = router_state (mem w0)) /\
   down_of rd (mem w) <> pad_down (mem w)) /\
  let down := down_of rd (mem w) in
  let pressed := pad_pressed (mem w) in
  let confirmed :=
    mkWorld (with_pad_pressed (settle pressed down)
               (with_inputs (rd :: []) (with_pad_down down (mem w))))
            (calls w) in
  three_polls (invoke E 1) 3 10 30 50 w
  = bind (if nonempty (fresh_down_of pressed down) || nonempty (fresh_up_of pressed down)
          then dispatch (invoke E 1) 3 0 (fresh_down_of pressed down)
                        (fresh_up_of pressed down) 30
          else ret tt)
         (fun _ => modify (with_inputs [])) confirmed.
Proof.
  intros E rd w.
  assert (H1 : GAMEPADSHIFT (mem w) = Some GamePadShift) by (vm_compute; reflexivity).
  assert (H2 : inputs (mem w) = rd :: rd :: rd :: []) by (vm_compute; reflexivity).
  assert (Hf : forallb (fun p => is_function (handler_of p)) (PRESSES (mem w)) = true)
    by (vm_compute; reflexivity).
  assert (H3 : forall fn t w0, is_function fn = true ->
                               router_state (mem (snd (invoke E 1 fn t w0)))
                               = router_state (mem w0)).
  { intros fn t w0 Hfn. destruct fn as [i|]; [reflexivity | discriminate Hfn]. }
  assert (H4 : down_of rd (mem w) <> pad_down (mem w)) by (vm_compute; discriminate).
  split; [exact (conj H1 (conj H2 (conj Hf (conj H3 H4))))|].
  exact (@held_press_is_dispatched_once (invoke E 1) 3%nat 10 30 50 w GamePadShift rd []
           H1 H2 Hf H3 H4).
Defined.

(** The run of the witness: the handler bound to pin 4 is called once, at
    the second poll. *)
Lemma held_press_calls_handler_once :
  let E := sample_env true quiet in
  let rd := reading_of [PPin 4] 0 in
  let w := mkWorld (two_button_app E [] [rd; rd; rd]) [] in
  fst (three_polls (invoke E 1) 3 10 30 50 w) = Ok tt /\
  calls (snd (three_polls (invoke E 1) 3 10 30 50 w)) = [(Fn 0, 30)].
Proof. split; vm_compute; reflexivity. Qed.

(** ** The entry of a periodic task after its call *)

(** X12.  When the loop over the periodic tasks comes to a task that is
    due and its call returns, the loop writes the entry of the task back,
    with its old interval and [now] as the time of the last call,
    whatever the handler has done to the registry: a periodic handler
    that cancels itself is registered again by the loop.  The entries of
    the other callables, the one-shots and the calls made are as the
    handler left them. *)
Theorem due_periodic_task_is_written_back
        (E : env) (fuel : nat) (it it' : Dict.iter) (now : Z) (w w1 : world)
        (fn : handler) (interval last_called : Z) (v : retval) :
  Dict.next (strict E) (INTERVALS (mem w)) it = Dict.Yield (fn, (interval, last_called)) it' ->
  last_called + interval <= now ->
  invoke E fuel fn now w = (Ok v, w1) ->
  exists w2,
    intervals_loop E (S fuel) it now w = intervals_loop E fuel it' now w2 /\
    Dict.get (INTERVALS (mem w2)) fn = Some (interval, now) /\
    (forall k, k <> fn -> Dict.get (INTERVALS (mem w2)) k = Dict.get (INTERVALS (mem w1)) k) /\
    TIMERS (mem w2) = TIMERS (mem w1) /\
    PRESSES (mem w2) = PRESSES (mem w1) /\
    calls w2 = calls w1.
Proof.
  intros Hnext Hdue Hcall.
  exists (mkWorld (with_INTERVALS (Dict.set (INTERVALS (mem w1)) fn (interval, now)) (mem w1))
                  (calls w1)).
  split; [|split; [|split; [|split; [|split]]]]; try reflexivity.
  - rewrite intervals_loop_S, Hnext.
    apply Z.leb_le in Hdue. rewrite Hdue, Hcall. reflexivity.
  - cbn [mem INTERVALS with_INTERVALS]. apply DictFacts.get_set_same.
  - intros k Hk. cbn [mem INTERVALS with_INTERVALS]. apply GetFacts.get_set_other. exact Hk.
Qed.

Lemma due_periodic_task_is_written_back_witness :
  let E := sample_env false self_cancelling in
  let w := mkWorld (every 20 (Fn 0) (initial [] [])) [] in
  let it := Dict.iter_start (INTERVALS (mem w)) in
  let w1 := mkWorld (cancel [Fn 0] (mem w)) [(Fn 0, 100)] in
  (Dict.next (strict E) (INTERVALS (mem w)) it
   = Dict.Yield (Fn 0, (20, 0)) (Dict.mkIter 1 1 0) /\
   0 + 20 <= 100 /\
   invoke E 1 (Fn 0) 100 w = (Ok Other, w1)) /\
  Dict.get (INTERVALS (mem w1)) (Fn 0) = None /\
  exists w2,
    intervals_loop E 2 it 100 w = intervals_loop E 1 (Dict.mkIter 1 1 0) 100 w2 /\
    Dict.get (INTERVALS (mem w2)) (Fn 0) = Some (20, 100) /\
    (forall k, k <> Fn 0 -> Dict.get (INTERVALS (mem w2)) k = Dict.get (INTERVALS (mem w1)) k) /\
    TIMERS (mem w2) = TIMERS (mem w1) /\
    PRESSES (mem w2) = PRESSES (mem w1) /\
    calls w2 = calls w1.
Proof.
  intros E w it w1.
  assert (H1 : Dict.next (strict E) (INTERVALS (mem w)) it
               = Dict.Yield (Fn 0, (20, 0)) (Dict.mkIter 1 1 0)) by (vm_compute; reflexivity).
  assert (H2 : 0 + 20 <= 100) by lia.
  assert (H3 : invoke E 1 (Fn 0) 100 w = (Ok Other, w1)) by (vm_compute; reflexivity).
  split; [exact (conj H1 (conj H2 H3))|].
  split; [vm_compute; reflexivity|].
  exact (@due_periodic_task_is_written_back E 1%nat it (Dict.mkIter 1 1 0) 100 w w1
           (Fn 0) 20 0 Other H1 H2 H3).
Defined.

(** ** The registries after a pass *)

Lemma fire_pass_of_snapshots (E : env) (fuel : nat) (now : Z) (w : world) :
  (forall i t s, INTERVALS (snd (body E i t s)) = INTERVALS s) ->
  (forall i t s, TIMERS (snd (body E i t s)) = TIMERS s) ->
  strict E = false \/ filter (due_timer now) (Dict.items (TIMERS (mem w))) = [] ->
  fire_pass E fuel now w
  = snapshot_pass E fuel now (Dict.items (INTERVALS (mem w))) (Dict.items (TIMERS (mem w))) w.
Proof.
  intros HI HT Hcase. rewrite fire_pass_eq. unfold snapshot_pass, bind.
  rewrite (@intervals_loop_snapshot E now HI fuel) by apply iter_start_in_step.
  cbn [Dict.iter_start Dict.it_pos skipn].
  pose proof (@snapshot_intervals_keeps_TIMERS E now HT fuel
                (Dict.items (INTERVALS (mem w))) w) as Hk.
  destruct (snapshot_intervals E fuel now (Dict.items (INTERVALS (mem w))) w)
    as [[u|e|] w1]; cbn [snd] in Hk; try reflexivity.
  rewrite (@timers_loop_snapshot E now HT fuel).
  - cbn [Dict.iter_start Dict.it_pos skipn]. rewrite Hk. reflexivity.
  - destruct Hcase as [Hs|Hnone]; [left; exact Hs|right].
    split; [apply iter_start_in_step|].
    cbn [Dict.iter_start Dict.it_pos skipn]. rewrite Hk. exact Hnone.
Qed.

Section QuietRegistries.
Variable E : env.
Variable now : Z.

Hypothesis body_keeps_INTERVALS :
  forall i t s, INTERVALS (snd (body E i t s)) = INTERVALS s.
Hypothesis body_keeps_TIMERS :
  forall i t s, TIMERS (snd (body E i t s)) = TIMERS s.

Lemma snapshot_timers_keeps_INTERVALS (fuel : nat) :
  forall (snap : list (handler * Z)) (w : world),
    INTERVALS (mem (snd (snapshot_timers E fuel now snap w))) = INTERVALS (mem w).
Proof.
  induction fuel as [|f IH]; intros snap w; [reflexivity|].
  rewrite snapshot_timers_S.
  destruct snap as [|[fn target] rest]; [reflexivity|].
  destruct (target <=? now); [|apply IH].
  pose proof (@invoke_keeps_INTERVALS E body_keeps_INTERVALS f fn now
                (mkWorld (with_TIMERS (Dict.remove (TIMERS (mem w)) fn) (mem w)) (calls w)))
    as Hk.
  destruct (invoke E f fn now _) as [[v|e|] w1]; cbn [snd mem INTERVALS with_TIMERS] in *;
    try exact Hk.
  rewrite IH. exact Hk.
Qed.

Lemma snapshot_intervals_registry (snap : list (handler * (Z * Z))) :
  forall (fuel : nat) (w w' : world),
    NoDup (map fst snap) ->
    snapshot_intervals E fuel now snap w = (Ok tt, w') ->
    (forall fn, ~ In fn (map fst snap) ->
                Dict.get (INTERVALS (mem w')) fn = Dict.get (INTERVALS (mem w)) fn) /\
    (forall fn v, In (fn, v) snap ->
                  Dict.get (INTERVALS (mem w')) fn
                  = if snd v + fst v <=? now then Some (fst v, now)
                    else Dict.get (INTERVALS (mem w)) fn).
Proof.
  induction snap as [|[k [interval last_called]] rest IH]; intros fuel w w' Hnd Hrun.
  - destruct fuel as [|f]; [discriminate Hrun|]. rewrite snapshot_intervals_S in Hrun.
    injection Hrun as <-. split; [reflexivity | intros fn v []].
  - destruct fuel as [|f]; [discriminate Hrun|]. rewrite snapshot_intervals_S in Hrun.
    cbn [map fst] in Hnd. inversion Hnd as [|? ? Hk Hnd']; subst.
    destruct (last_called + interval <=? now) eqn:Hdue.
    + pose proof (@invoke_keeps_INTERVALS E body_keeps_INTERVALS f k now w) as Hkeep.
      destruct (invoke E f k now w) as [[v|e|] w1]; try discriminate Hrun.
      cbn [snd] in Hkeep.
      destruct (IH _ _ _ Hnd' Hrun) as [Hout Hin].
      cbn [mem INTERVALS with_INTERVALS] in Hout, Hin. rewrite Hkeep in Hout, Hin.
      split.
      * intros fn Hfn. rewrite Hout by (intros H; apply Hfn; right; exact H).
        apply GetFacts.get_set_other. intros ->. apply Hfn. left. reflexivity.
      * intros fn v0 [Heq|Hv].
        -- injection Heq as <- <-. cbn [fst snd]. rewrite Hdue, (Hout k Hk).
           apply DictFacts.get_set_same.
        -- rewrite (Hin fn v0 Hv). destruct (snd v0 + fst v0 <=? now); [reflexivity|].
           apply GetFacts.get_set_other. intros ->. apply Hk.
           apply (in_map fst) in Hv. exact Hv.
    + destruct (IH _ _ _ Hnd' Hrun) as [Hout Hin]. split.
      * intros fn Hfn. apply Hout. intros H. apply Hfn. right. exact H.
      * intros fn v0 [Heq|Hv].
        -- injection Heq as <- <-. cbn [fst snd]. rewrite Hdue. apply Hout. exact Hk.
        -- apply Hin. exact Hv.
Qed.

Lemma snapshot_timers_registry (snap : list (handler * Z)) :
  forall (fuel : nat) (w w' : world),
    NoDup (Dict.keys (TIMERS (mem w))) ->
    NoDup (map fst snap) ->
    snapshot_timers E fuel now snap w = (Ok tt, w') ->
    (forall fn, ~ In fn (map fst snap) ->
                Dict.get (TIMERS (mem w')) fn = Dict.get (TIMERS (mem w)) fn) /\
    (forall fn target, In (fn, target) snap ->
                       Dict.get (TIMERS (mem w')) fn
                       = if target <=? now then None else Dict.get (TIMERS (mem w)) fn).
Proof.
  induction snap as [|[k target0] rest IH]; intros fuel w w' Hu Hnd Hrun.
  - destruct fuel as [|f]; [discriminate Hrun|]. rewrite snapshot_timers_S in Hrun.
    injection Hrun as <-. split; [reflexivity | intros fn v []].
  - destruct fuel as [|f]; [discriminate Hrun|]. rewrite snapshot_timers_S in Hrun.
    cbn [map fst] in Hnd. inversion Hnd as [|? ? Hk Hnd']; subst.
    destruct (target0 <=? now) eqn:Hdue.
    + pose proof (@invoke_keeps_TIMERS E body_keeps_TIMERS f k now
                    (mkWorld (with_TIMERS (Dict.remove (TIMERS (mem w)) k) (mem w)) (calls w)))
        as Hkeep.
      destruct (invoke E f k now _) as [[v|e|] w1]; try discriminate Hrun.
      cbn [snd mem TIMERS with_TIMERS] in Hkeep.
      assert (Hu1 : NoDup (Dict.keys (TIMERS (mem w1)))).
      { rewrite Hkeep. apply DictFacts.NoDup_keys_remove. exact Hu. }
      destruct (IH _ _ _ Hu1 Hnd' Hrun) as [Hout Hin].
      rewrite Hkeep in Hout, Hin.
      split.
      * intros fn Hfn. rewrite Hout by (intros H; apply Hfn; right; exact H).
        apply RemoveFacts.get_remove_other. intros ->. apply Hfn. left. reflexivity.
      * intros fn v0 [Heq|Hv].
        -- injection Heq as <- <-. rewrite Hdue, (Hout k Hk).
           apply GetFacts.keys_none_get. apply RemoveFacts.keys_remove_gone. exact Hu.
        -- rewrite (Hin fn v0 Hv). destruct (v0 <=? now); [reflexivity|].
           apply RemoveFacts.get_remove_other. intros ->. apply Hk.
           apply (in_map fst) in Hv. exact Hv.
    + destruct (IH _ _ _ Hu Hnd' Hrun) as [Hout Hin]. split.
      * intros fn Hfn. apply Hout. intros H. apply Hfn. right. exact H.
      * intros fn v0 [Heq|Hv].
        -- injection Heq as <- <-. rewrite Hdue. apply Hout. exact Hk.
        -- apply Hin. exact Hv.
Qed.
End QuietRegistries.

(** X13.  What a pass does to the registries when no handler registers or
    cancels a task and the pass returns: a periodic task that was due has
    its old interval and [now] as the time of its last call, so its next
    deadline is counted from this pass and not from its old deadline; a
    one-shot that was due is gone; every other entry is as it was, and no
    entry has been added. *)
Theorem quiet_pass_updates_registries
        (E : env) (fuel : nat) (now : Z) (w w' : world) :
  (forall i t s, INTERVALS (snd (body E i t s)) = INTERVALS s) ->
  (forall i t s, TIMERS (snd (body E i t s)) = TIMERS s) ->
  strict E = false \/ filter (due_timer now) (Dict.items (TIMERS (mem w))) = [] ->
  unique_keys (mem w) ->
  fire_pass E fuel now w = (Ok tt, w') ->
  forall fn,
    Dict.get (INTERVALS (mem w')) fn
    = option_map (reanchor now) (Dict.get (INTERVALS (mem w)) fn) /\
    Dict.get (TIMERS (mem w')) fn
    = match Dict.get (TIMERS (mem w)) fn with
      | Some target => unexpired now target
      | None => None
      end.
Proof.
  intros HI HT Hcase [HuI HuT] Hrun fn.
  rewrite (@fire_pass_of_snapshots E fuel now w HI HT Hcase) in Hrun.
  unfold snapshot_pass, bind in Hrun.
  pose proof (@snapshot_intervals_keeps_TIMERS E now HT fuel
                (Dict.items (INTERVALS (mem w))) w) as HkT.
  destruct (snapshot_intervals E fuel now (Dict.items (INTERVALS (mem w))) w)
    as [[[]|e|] w1] eqn:H1; try discriminate Hrun.
  cbn [snd] in HkT.
  pose proof (@snapshot_timers_keeps_INTERVALS E now HI fuel
                (Dict.items (TIMERS (mem w))) w1) as HkI.
  rewrite Hrun in HkI. cbn [snd] in HkI.
  destruct (@snapshot_intervals_registry E now HI _ _ _ _ HuI H1) as [HoutI HinI].
  assert (HuT1 : NoDup (Dict.keys (TIMERS (mem w1)))) by (rewrite HkT; exact HuT).
  destruct (@snapshot_timers_registry E now HT _ _ _ _ HuT1 HuT Hrun) as [HoutT HinT].
  rewrite HkT in HoutT, HinT. rewrite HkI. split.
  - destruct (Dict.get (INTERVALS (mem w)) fn) as [[interval last_called]|] eqn:Hg.
    + rewrite (HinI fn (interval, last_called) (@GetFacts.get_in_items _ _ _ _ Hg)).
      cbn [fst snd option_map reanchor].
      destruct (last_called + interval <=? now); [reflexivity|exact Hg].
    + rewrite (HoutI fn (@GetFacts.get_none_keys _ _ _ Hg)). exact Hg.
  - destruct (Dict.get (TIMERS (mem w)) fn) as [target|] eqn:Hg.
    + rewrite (HinT fn target (@GetFacts.get_in_items _ _ _ _ Hg)). unfold unexpired.
      destruct (target <=? now); [reflexivity|exact Hg].
    + rewrite (HoutT fn (@GetFacts.get_none_keys _ _ _ Hg)). exact Hg.
Qed.

Lemma quiet_pass_updates_registries_witness :
  let E := sample_env false quiet in
  let w := mkWorld (every 50 (Fn 1) (every 20000 (Fn 0)
                      (at_ 500 (Fn 2) (at_ 30 (Fn 3) (initial [] []))))) [] in
  let w' := snd (fire_pass E 5 100 w) in
  ((forall i t s, INTERVALS (snd (body E i t s)) = INTERVALS s) /\
   (forall i t s, TIMERS (snd (body E i t s)) = TIMERS s) /\
   (strict E = false \/ filter (due_timer 100) (Dict.items (TIMERS (mem w))) = []) /\
   unique_keys (mem w) /\
   fire_pass E 5 100 w = (Ok tt, w')) /\
  forall fn,
    Dict.get (INTERVALS (mem w')) fn
    = option_map (reanchor 100) (Dict.get (INTERVALS (mem w)) fn) /\
    Dict.get (TIMERS (mem w')) fn
    = match Dict.get (TIMERS (mem w)) fn with
      | Some target => unexpired 100 target
      | None => None
      end.
Proof.
  intros E w w'.
  assert (HI : forall i t s, INTERVALS (snd (body E i t s)) = INTERVALS s)
    by (intros; reflexivity).
  assert (HT : forall i t s, TIMERS (snd (body E i t s)) = TIMERS s)
    by (intros; reflexivity).
  assert (Hcase : strict E = false \/
                  filter (due_timer 100) (Dict.items (TIMERS (mem w))) = [])
    by (left; reflexivity).
  assert (Hu : unique_keys (mem w)).
  { apply unique_keys_do_calls with
      (cs := [CallAt 30 (Fn 3); CallAt 500 (Fn 2); CallEvery 20000 (Fn 0); CallEvery 50 (Fn 1)])
      (s := initial [] []).
    split; constructor. }
  assert (Hrun : fire_pass E 5 100 w = (Ok tt, w')) by (vm_compute; reflexivity).
  split; [exact (conj HI (conj HT (conj Hcase (conj Hu Hrun))))|].
  exact (@quiet_pass_updates_registries E 5%nat 100 w w' HI HT Hcase Hu Hrun).
Defined.

(** The registries of the witness after the pass. *)
Lemma quiet_pass_registries_after :
  let E := sample_env false quiet in
  let w := mkWorld (every 50 (Fn 1) (every 20000 (Fn 0)
                      (at_ 500 (Fn 2) (at_ 30 (Fn 3) (initial [] []))))) [] in
  let w' := snd (fire_pass E 5 100 w) in
  Dict.items (INTERVALS (mem w')) = [(Fn 0, (20000, 0)); (Fn 1, (50, 100))] /\
  Dict.items (TIMERS (mem w')) = [(Fn 2, 500)] /\
  calls w' = [(Fn 1, 100); (Fn 3, 100)].
Proof. repeat split; vm_compute; reflexivity. Qed.

(** ** Pins and their drivers at a poll *)

Lemma dio_down_of_own_driver (f : pyval -> driver) (rd : reading) (buttons : list pyval) :
  dio_down_of rd buttons (map f buttons) = filter (fun b => rd_value rd (f b)) buttons.
Proof.
  unfold dio_down_of.
  induction buttons as [|b r IH]; cbn [map combine filter snd]; [reflexivity|].
  destruct (rd_value rd (f b)); cbn [map fst]; rewrite IH; reflexivity.
Qed.

Lemma gp_down_of_members (word : Z) (b : pyval) :
  In b (gp_down_of word) -> py_in b GAMEPAD = true.
Proof.
  unfold gp_down_of. intros H. apply py_in_In. unfold GAMEPAD.
  apply in_map_iff in H. destruct H as (z & <- & Hz). apply filter_In in Hz.
  apply in_map. apply Hz.
Qed.

Lemma NoDup_GAMEPAD_BITS : NoDup GAMEPAD_BITS.
Proof.
  unfold GAMEPAD_BITS.
  repeat (constructor; [cbn [In]; intros H; repeat (destruct H as [H|H]; [discriminate H|]);
                        exact H|]).
  constructor.
Qed.

Lemma NoDup_gp_down_of (word : Z) : NoDup (gp_down_of word).
Proof.
  unfold gp_down_of. apply NoDup_map_NoDup_ForallPairs.
  - intros x y _ _ H. injection H as ->. reflexivity.
  - apply NoDup_filter. exact NoDup_GAMEPAD_BITS.
Qed.

(** X14.  After a series of [on] calls on buttons of the board, a poll
    reads every pin that was named through the driver [on] has built for
    that pin: its list [down] holds the named pins whose own driver reads
    high, each once and in the order in which they were first named,
    followed by the buttons of the shift register whose bit is set in the
    word read; and no button is in the list twice. *)
Theorem poll_reads_each_pin_through_its_driver
        (E : env) (bs : list (list pyval * handler * Z)) (clk : list Z) (ins : list reading)
        (rd : reading) :
  Forall (fun b => forallb (known E) (fst (fst b)) = true) bs ->
  let s := do_bindings E bs (initial clk ins) in
  down_of rd s
  = filter (fun b => rd_value rd (driver_of E b)) (new_pins [] (named_buttons bs))
    ++ gp_down_of (rd_pressed rd) /\
  (forall b,
      In b (down_of rd s) <->
      ((exists binding, In binding bs /\ In b (fst (fst binding))) /\
       py_in b GAMEPAD = false /\
       rd_value rd (driver_of E b) = true) \/
      In b (gp_down_of (rd_pressed rd))) /\
  NoDup (down_of rd s).
Proof.
  intros Hk s.
  destruct (@do_bindings_known E bs Hk (initial clk ins) (wired_initial E clk ins))
    as (_ & Hw & _).
  pose proof (@do_bindings_buttons E bs Hk (initial clk ins) (wired_initial E clk ins)) as HB.
  cbn [initial BUTTONS app] in HB. fold s in Hw, HB.
  assert (Heq : down_of rd s
                = filter (fun b => rd_value rd (driver_of E b))
                         (new_pins [] (named_buttons bs))
                  ++ gp_down_of (rd_pressed rd)).
  { unfold down_of. rewrite (wired_DIOS Hw), dio_down_of_own_driver, HB. reflexivity. }
  split; [exact Heq|]. split.
  - intros b. rewrite Heq, in_app_iff, filter_In, new_pins_In, named_buttons_In. split.
    + intros [((H1 & _ & H3) & H4)|Hg]; [left|right; exact Hg].
      split; [exact H1|]. split; assumption.
    + intros [(H1 & H3 & H4)|Hg]; [left|right; exact Hg].
      split; [|exact H4]. split; [exact H1|]. split; [intros []|exact H3].
  - rewrite Heq. apply NoDup_app.
    + apply NoDup_filter. rewrite <- HB. exact (wired_NoDup Hw).
    + apply NoDup_gp_down_of.
    + intros b Hb Hg. apply filter_In in Hb. destruct Hb as [Hb _].
      rewrite <- HB in Hb.
      apply gp_down_of_members in Hg. rewrite (wired_no_gamepad Hw b Hb) in Hg.
      discriminate Hg.
Qed.

Lemma poll_reads_each_pin_through_its_driver_witness :
  let E := sample_env true quiet in
  let bs := [([PPin 4; PInt 2], Fn 0, DOWN); ([PPin 1; PPin 4], Fn 1, UP)] in
  let rd := reading_of [PPin 1] 3 in
  Forall (fun b => forallb (known E) (fst (fst b)) = true) bs /\
  let s := do_bindings E bs (initial [] []) in
  down_of rd s
  = filter (fun b => rd_value rd (driver_of E b)) (new_pins [] (named_buttons bs))
    ++ gp_down_of (rd_pressed rd) /\
  (forall b,
      In b (down_of rd s) <->
      ((exists binding, In binding bs /\ In b (fst (fst binding))) /\
       py_in b GAMEPAD = false /\
       rd_value rd (driver_of E b) = true) \/
      In b (gp_down_of (rd_pressed rd))) /\
  NoDup (down_of rd s).
Proof.
  intros E bs rd.
  assert (Hk : Forall (fun b => forallb (known E) (fst (fst b)) = true) bs)
    by (repeat constructor).
  split; [exact Hk|].
  exact (@poll_reads_each_pin_through_its_driver E bs [] [] rd Hk).
Defined.

(** The poll of the witness: pin 1 is high, and the word 3 has the bits
    of the buttons A and B. *)
Lemma poll_of_two_bindings :
  let E := sample_env true quiet in
  let bs := [([PPin 4; PInt 2], Fn 0, DOWN); ([PPin 1; PPin 4], Fn 1, UP)] in
  down_of (reading_of [PPin 1] 3) (do_bindings E bs (initial [] []))
  = [PPin 1; PInt 2; PInt 1].
Proof. vm_compute. reflexivity. Qed.

(** ** Starting without a gamepad binding, whatever else is registered *)













Section WithoutShift.
Variable E : env.

(** No handler body builds the shift register: none binds a member of
    [GAMEPAD]. *)
Hypothesis body_keeps_shift :
  forall i t s, GAMEPADSHIFT (snd (body E i t s)) = GAMEPADSHIFT s.








Variable now : Z.
Hypothesis body_returns : forall i t s, exists v, fst (body E i t s) = Ok v.

End WithoutShift.



(** The application of the witness, run: the periodic task is called,
    then the poll, which raises. *)
Lemma start_with_a_task_and_a_pin_binding :
  let E := sample_env true quiet in
  let cs := [Register (CallTick (Fn 0)); Bind [PPin 4] (Fn 1) DOWN;
             Register (CallAt 5000 (Fn 2))] in
  let w := mkWorld (do_app E cs (initial [1000] [])) [] in
  fst (start E 4 None w) = Raise AttributeError /\
  calls (snd (start E 4 None w)) = [(Fn 0, 1000); (Pad, 1000)].
Proof. split; vm_compute; reflexivity. Qed.

(** Two applications with a task registered by [tick] and no binding.
    When the handler of the task raises, the run ends there, before any
    poll.  When it binds a button of the gamepad, the shift register is
    there when the poll is made, and the poll returns. *)
Lemma handler_raises_before_the_poll :
  let E := sample_env true faulty in
  let w := mkWorld (do_app E [Register (CallTick (Fn 0))] (initial [1000] [])) [] in
  start E 4 None w
  = (Raise (Fault 1), mkWorld (with_clock [] (every 20 Pad (mem w))) [(Fn 0, 1000)]).
Proof. vm_compute. reflexivity. Qed.

Lemma handler_binds_the_gamepad_before_the_poll :
  let E := sample_env true binding_gamepad in
  let w := mkWorld (do_app E [Register (CallTick (Fn 0))]
                           (initial [1000] [reading_of [] 0])) [] in
  fst (start E 4 None w) = Starved /\
  calls (snd (start E 4 None w)) = [(Fn 0, 1000); (Pad, 1000)] /\
  GAMEPADSHIFT (mem (snd (start E 4 None w))) = Some GamePadShift.
Proof. repeat split; vm_compute; reflexivity. Qed.

(** ** Handlers that change the binding list during a dispatch pass *)

(** The pass of three bindings on one button, of which the first handler
    cancels itself and propagates and the second does not propagate: the
    list has moved up under the index of the loop, the second binding is
    passed over and the third handler is called. *)
Lemma cancelling_handler_run :
  let E := sample_env true leaving_first in
  let w := mkWorld (with_PRESSES three_on_one_button (initial [] [])) [] in
  calls (snd (dispatch (invoke E 1) 4 0 [PPin 4] [] 7 w)) = [(Fn 0, 7); (Fn 2, 7)] /\
  calls (snd (walk (invoke E 1) (PRESSES (mem w)) [PPin 4] [] 7 w)) = [(Fn 0, 7); (Fn 1, 7)].
Proof. split; vm_compute; reflexivity. Qed.

